(** * Music-trivia game: the LLM response parser and the quiz scene logic

    A shallow embedding of the JavaScript drafts of the game:
    - the JSON clean-up of the streamed LLM text ([runLLM_Command],
      [runLLM_Question_Command], [runLLM_Topic_Command] in
      llm_service.js / part_001, [runLLM_API_Call] in part_002);
    - the Phaser scenes' [processPlayerGuess], [getTopics],
      [showTopicSelection], [startNextRound] and [callGeminiAPI]
      (app.jsx, main.js, part_003).

    JavaScript strings are modelled as [list ascii] (the Latin-1 range of
    UTF-16).  [JSON.parse] and [JSON.stringify] are modelled for the JSON
    values used by the game: objects, arrays, strings, booleans, null and
    integer numbers. *)

From Stdlib Require Import List Ascii String ZArith Bool Lia Arith.
From Stdlib Require Import DecimalNat DecimalFacts DecimalZ.
Import ListNotations.
Set Warnings "-register-all".
Open Scope list_scope.

Definition str := list ascii.

(** A string literal as a list of characters. *)
Definition lit (s : string) : str := list_ascii_of_string s.

(** ** Character classes *)

(** White space removed by [String.prototype.trim] (Latin-1 range):
    TAB, LF, VT, FF, CR, SPACE and NO-BREAK SPACE. *)
Definition is_js_ws (c : ascii) : bool :=
  match nat_of_ascii c with
  | 9 | 10 | 11 | 12 | 13 | 32 | 160 => true
  | _ => false
  end.

(** White space skipped by [JSON.parse]: SPACE, TAB, LF, CR. *)
Definition is_json_ws (c : ascii) : bool :=
  match nat_of_ascii c with
  | 9 | 10 | 13 | 32 => true
  | _ => false
  end.

Definition ascii_eqb (a b : ascii) : bool := Ascii.eqb a b.

Fixpoint str_eqb (s t : str) : bool :=
  match s, t with
  | [], [] => true
  | a :: s', b :: t' => ascii_eqb a b && str_eqb s' t'
  | _, _ => false
  end.

(** ** String.prototype methods *)

Fixpoint trim_start (s : str) : str :=
  match s with
  | [] => []
  | c :: r => if is_js_ws c then trim_start r else s
  end.

Definition trim_end (s : str) : str := rev (trim_start (rev s)).

(** [s.trim()] *)
Definition js_trim (s : str) : str := trim_end (trim_start s).

(** [s.substring(s.indexOf(c))] when [s.indexOf(c) > -1], [None] when
    [s.indexOf(c) === -1]. *)
Fixpoint from_first (c : ascii) (s : str) : option str :=
  match s with
  | [] => None
  | d :: r => if ascii_eqb c d then Some s else from_first c r
  end.

(** [s.substring(0, s.lastIndexOf(c) + 1)] when [s.lastIndexOf(c) > -1],
    [None] otherwise. *)
Definition upto_last (c : ascii) (s : str) : option str :=
  match from_first c (rev s) with
  | None => None
  | Some r => Some (rev r)
  end.

Fixpoint is_prefix (p s : str) : bool :=
  match p, s with
  | [], _ => true
  | a :: p', b :: s' => ascii_eqb a b && is_prefix p' s'
  | _ :: _, [] => false
  end.

(** [s.endsWith(p)] *)
Definition ends_with (p s : str) : bool := is_prefix (rev p) (rev s).

(** [s.lastIndexOf(p)], [None] standing for [-1]. *)
Fixpoint last_index_of_from (p s : str) (i : nat) : option nat :=
  match s with
  | [] => if is_prefix p [] then Some i else None
  | _ :: r =>
      match last_index_of_from p r (S i) with
      | Some j => Some j
      | None => if is_prefix p s then Some i else None
      end
  end.

Definition last_index_of (p s : str) : option nat := last_index_of_from p s 0.

(** [s.substring(0, i)]; [substring(0, -1)] is the empty string. *)
Definition substring0 (s : str) (i : option nat) : str :=
  match i with
  | Some n => firstn n s
  | None => []
  end.

(** [s.slice(0, -1)] *)
Definition slice_drop_last (s : str) : str := removelast s.

(** [s.includes(t)] *)
Fixpoint includes (t s : str) : bool :=
  is_prefix t s || match s with [] => false | _ :: r => includes t r end.

(** A literal written with apostrophes in place of double quotes. *)
Definition jlit (s : string) : str :=
  map (fun c => if ascii_eqb c "'"%char then ascii_of_nat 34 else c) (lit s).

Definition fence : str := lit "```".
Definition dot : str := lit ".".
Definition newline : str := [ascii_of_nat 10].

(** ** JSON values, [JSON.stringify] and [JSON.parse]

    Objects keep their members in source order; a property read returns
    the last member with that name, as [JSON.parse] keeps the last of
    duplicated names.  Numbers are the integers: a fraction or an exponent
    is outside the model and makes [json_parse] fail. *)

Inductive json : Type :=
| JNull
| JBool (b : bool)
| JNum (z : Z)
| JStr (s : str)
| JArr (l : list json)
| JObj (l : list (str * json)).

Definition quote : ascii := ascii_of_nat 34.
Definition backslash : ascii := ascii_of_nat 92.

Definition hexdig (n : nat) : ascii :=
  if n <? 10 then ascii_of_nat (48 + n) else ascii_of_nat (87 + n).

(** The escape of one string character by [JSON.stringify]. *)
Definition esc_char (c : ascii) : str :=
  match nat_of_ascii c with
  | 34 => [backslash; quote]
  | 92 => [backslash; backslash]
  | 8 => [backslash; "b"%char]
  | 9 => [backslash; "t"%char]
  | 10 => [backslash; "n"%char]
  | 12 => [backslash; "f"%char]
  | 13 => [backslash; "r"%char]
  | n => if n <? 32
         then [backslash; "u"%char; "0"%char; "0"%char; hexdig (n / 16); hexdig (n mod 16)]
         else [c]
  end.

Definition ser_str (s : str) : str := quote :: flat_map esc_char s ++ [quote].

Definition digit_char (d : nat) : ascii := ascii_of_nat (48 + d).

Fixpoint uint_str (u : Decimal.uint) : str :=
  match u with
  | Decimal.Nil => []
  | Decimal.D0 u => digit_char 0 :: uint_str u
  | Decimal.D1 u => digit_char 1 :: uint_str u
  | Decimal.D2 u => digit_char 2 :: uint_str u
  | Decimal.D3 u => digit_char 3 :: uint_str u
  | Decimal.D4 u => digit_char 4 :: uint_str u
  | Decimal.D5 u => digit_char 5 :: uint_str u
  | Decimal.D6 u => digit_char 6 :: uint_str u
  | Decimal.D7 u => digit_char 7 :: uint_str u
  | Decimal.D8 u => digit_char 8 :: uint_str u
  | Decimal.D9 u => digit_char 9 :: uint_str u
  end.

Definition ser_num (z : Z) : str :=
  match Z.to_int z with
  | Decimal.Pos u => uint_str u
  | Decimal.Neg u => "-"%char :: uint_str u
  end.

(** [JSON.stringify(v)] (no indentation). *)
Fixpoint ser (v : json) : str :=
  match v with
  | JNull => lit "null"
  | JBool true => lit "true"
  | JBool false => lit "false"
  | JNum z => ser_num z
  | JStr s => ser_str s
  | JArr [] => lit "[]"
  | JArr (x :: r) =>
      "["%char :: ser x ++
        (fix tl (r : list json) : str :=
           match r with
           | [] => ["]"%char]
           | y :: r' => ","%char :: ser y ++ tl r'
           end) r
  | JObj [] => lit "{}"
  | JObj ((k, x) :: r) =>
      "{"%char :: ser_str k ++ ":"%char :: ser x ++
        (fix tl (r : list (str * json)) : str :=
           match r with
           | [] => ["}"%char]
           | (k', y) :: r' => ","%char :: ser_str k' ++ ":"%char :: ser y ++ tl r'
           end) r
  end.

Fixpoint skip_ws (s : str) : str :=
  match s with
  | c :: r => if is_json_ws c then skip_ws r else s
  | [] => []
  end.

Definition hexval (c : ascii) : option nat :=
  let n := nat_of_ascii c in
  if (48 <=? n) && (n <=? 57) then Some (n - 48)
  else if (97 <=? n) && (n <=? 102) then Some (n - 87)
  else if (65 <=? n) && (n <=? 70) then Some (n - 55)
  else None.

Definition str_cons (c : ascii) (o : option (str * str)) : option (str * str) :=
  match o with
  | Some (t, r) => Some (c :: t, r)
  | None => None
  end.

(** The body of a JSON string literal, after its opening quote: the
    decoded text and what follows the closing quote.  A [\uXXXX] escape
    above U+00FF has no character in the model and fails. *)
Fixpoint p_str (s : str) : option (str * str) :=
  match s with
  | [] => None
  | c :: r =>
      if ascii_eqb c quote then Some ([], r)
      else if ascii_eqb c backslash then
        match r with
        | [] => None
        | e :: r' =>
            if ascii_eqb e quote then str_cons quote (p_str r')
            else if ascii_eqb e backslash then str_cons backslash (p_str r')
            else if ascii_eqb e "/"%char then str_cons "/"%char (p_str r')
            else if ascii_eqb e "b"%char then str_cons (ascii_of_nat 8) (p_str r')
            else if ascii_eqb e "f"%char then str_cons (ascii_of_nat 12) (p_str r')
            else if ascii_eqb e "n"%char then str_cons (ascii_of_nat 10) (p_str r')
            else if ascii_eqb e "r"%char then str_cons (ascii_of_nat 13) (p_str r')
            else if ascii_eqb e "t"%char then str_cons (ascii_of_nat 9) (p_str r')
            else if ascii_eqb e "u"%char then
              match r' with
              | h1 :: h2 :: h3 :: h4 :: r'' =>
                  match hexval h1, hexval h2, hexval h3, hexval h4 with
                  | Some a, Some b, Some c', Some d =>
                      let code := ((a * 16 + b) * 16 + c') * 16 + d in
                      if code <? 256 then str_cons (ascii_of_nat code) (p_str r'')
                      else None
                  | _, _, _, _ => None
                  end
              | _ => None
              end
            else None
        end
      else if nat_of_ascii c <? 32 then None
      else str_cons c (p_str r)
  end.

Definition digit_val (c : ascii) : option nat :=
  let n := nat_of_ascii c in
  if (48 <=? n) && (n <=? 57) then Some (n - 48) else None.

Definition cons_digit (d : nat) (u : Decimal.uint) : Decimal.uint :=
  match d with
  | 0 => Decimal.D0 u | 1 => Decimal.D1 u | 2 => Decimal.D2 u
  | 3 => Decimal.D3 u | 4 => Decimal.D4 u | 5 => Decimal.D5 u
  | 6 => Decimal.D6 u | 7 => Decimal.D7 u | 8 => Decimal.D8 u
  | _ => Decimal.D9 u
  end.

(** The longest run of decimal digits at the front of [s]. *)
Fixpoint span_digits (s : str) : Decimal.uint * str :=
  match s with
  | [] => (Decimal.Nil, [])
  | c :: r =>
      match digit_val c with
      | Some d => let (u, rest) := span_digits r in (cons_digit d u, rest)
      | None => (Decimal.Nil, s)
      end
  end.

Definition frac_or_exp_start (s : str) : bool :=
  match s with
  | c :: _ => ascii_eqb c "."%char || ascii_eqb c "e"%char || ascii_eqb c "E"%char
  | [] => false
  end.

(** The unsigned part of a JSON number: [0] or a digit 1-9 followed by
    digits. *)
Definition p_uint (s : str) : option (Decimal.uint * str) :=
  match s with
  | c :: r =>
      if ascii_eqb c "0"%char then Some (Decimal.D0 Decimal.Nil, r)
      else match digit_val c with
           | Some _ => Some (span_digits s)
           | None => None
           end
  | [] => None
  end.

Definition p_num (s : str) : option (Z * str) :=
  let '(neg, s1) := match s with
                    | c :: r => if ascii_eqb c "-"%char then (true, r) else (false, s)
                    | [] => (false, s)
                    end in
  match p_uint s1 with
  | Some (u, rest) =>
      if frac_or_exp_start rest then None
      else Some (Z.of_int (if neg then Decimal.Neg u else Decimal.Pos u), rest)
  | None => None
  end.

(** The JSON grammar, by recursive descent with a fuel argument. *)
Fixpoint p_value (n : nat) (s : str) {struct n} : option (json * str) :=
  match n with
  | 0 => None
  | S n' =>
      match skip_ws s with
      | [] => None
      | (c :: r) as t =>
          if ascii_eqb c "{"%char then p_obj_first n' r
          else if ascii_eqb c "["%char then p_arr_first n' r
          else if ascii_eqb c quote then
            match p_str r with Some (x, r') => Some (JStr x, r') | None => None end
          else if is_prefix (lit "true") t then Some (JBool true, skipn 4 t)
          else if is_prefix (lit "false") t then Some (JBool false, skipn 5 t)
          else if is_prefix (lit "null") t then Some (JNull, skipn 4 t)
          else match p_num t with Some (z, r') => Some (JNum z, r') | None => None end
      end
  end
with p_arr_first (n : nat) (s : str) {struct n} : option (json * str) :=
  match n with
  | 0 => None
  | S n' =>
      match skip_ws s with
      | c :: r =>
          if ascii_eqb c "]"%char then Some (JArr [], r)
          else match p_value n' s with
               | Some (x, r1) => p_arr_rest n' r1 [x]
               | None => None
               end
      | [] => None
      end
  end
with p_arr_rest (n : nat) (s : str) (acc : list json) {struct n} : option (json * str) :=
  match n with
  | 0 => None
  | S n' =>
      match skip_ws s with
      | c :: r =>
          if ascii_eqb c ","%char then
            match p_value n' r with
            | Some (x, r1) => p_arr_rest n' r1 (acc ++ [x])
            | None => None
            end
          else if ascii_eqb c "]"%char then Some (JArr acc, r)
          else None
      | [] => None
      end
  end
with p_member (n : nat) (s : str) {struct n} : option ((str * json) * str) :=
  match n with
  | 0 => None
  | S n' =>
      match skip_ws s with
      | c :: r =>
          if ascii_eqb c quote then
            match p_str r with
            | Some (k, r1) =>
                match skip_ws r1 with
                | d :: r2 =>
                    if ascii_eqb d ":"%char then
                      match p_value n' r2 with
                      | Some (x, r3) => Some ((k, x), r3)
                      | None => None
                      end
                    else None
                | [] => None
                end
            | None => None
            end
          else None
      | [] => None
      end
  end
with p_obj_first (n : nat) (s : str) {struct n} : option (json * str) :=
  match n with
  | 0 => None
  | S n' =>
      match skip_ws s with
      | c :: r =>
          if ascii_eqb c "}"%char then Some (JObj [], r)
          else match p_member n' s with
               | Some (kx, r1) => p_obj_rest n' r1 [kx]
               | None => None
               end
      | [] => None
      end
  end
with p_obj_rest (n : nat) (s : str) (acc : list (str * json)) {struct n}
    : option (json * str) :=
  match n with
  | 0 => None
  | S n' =>
      match skip_ws s with
      | c :: r =>
          if ascii_eqb c ","%char then
            match p_member n' r with
            | Some (kx, r1) => p_obj_rest n' r1 (acc ++ [kx])
            | None => None
            end
          else if ascii_eqb c "}"%char then Some (JObj acc, r)
          else None
      | [] => None
      end
  end.

(** [JSON.parse(s)]: one value surrounded by white space.  The fuel,
    three steps per character, is never exhausted on a text the grammar
    accepts (see [jsize_ser] below for serialised values). *)
Definition json_parse (s : str) : option json :=
  match p_value (3 * List.length s + 3) s with
  | Some (v, r) => match skip_ws r with [] => Some v | _ => None end
  | None => None
  end.

(** ** The JSON clean-up of the streamed LLM text *)

(** [if (jsonString.endsWith('```')) jsonString =
      jsonString.substring(0, jsonString.lastIndexOf('```')).trim();] *)
Definition strip_fence (s : str) : str :=
  if ends_with fence s then js_trim (substring0 s (last_index_of fence s)) else s.

(** [while (jsonString.endsWith('.') || jsonString.endsWith('\n'))
      jsonString = jsonString.slice(0, -1).trim();]
    Every round shortens the string, so [length s] rounds always reach the
    exit of the JavaScript loop. *)
Fixpoint strip_tail (fuel : nat) (s : str) : str :=
  match fuel with
  | 0 => s
  | S f =>
      if ends_with dot s || ends_with newline s
      then strip_tail f (js_trim (slice_drop_last s))
      else s
  end.

Definition strip_trailing (s : str) : str := strip_tail (List.length s) s.

(** The string handed to [JSON.parse], or [None] when the trimmed text has
    no ['{'].  [improved] selects the "IMPROVED TRIMMING" drafts (part_001,
    part_002), which also cut everything after the last ['}']; the
    llm_service.js copies do not have that step. *)
Definition clean_json (improved : bool) (raw : str) : option str :=
  match from_first "{"%char (js_trim raw) with
  | None => None
  | Some s1 =>
      let s2 := if improved
                then match upto_last "}"%char s1 with Some s => s | None => s1 end
                else s1 in
      Some (strip_trailing (strip_fence s2))
  end.

(** The result of an [async] command: the resolved value, or the message of
    the [Error] it throws. *)
Inductive outcome : Type :=
| Ok (v : json)
| Throw (msg : str).

(** Property read [v.k] on a parsed value: [None] is [undefined]; reading a
    property of [null] throws a [TypeError], which every caller below catches
    with the same handler as a failed check, so it is folded into
    [fields_truthy]. *)
Definition lookup_last (k : str) (l : list (str * json)) : option json :=
  fold_left (fun acc kx => if str_eqb k (fst kx) then Some (snd kx) else acc) l None.

Definition get (v : json) (k : str) : option json :=
  match v with
  | JObj l => lookup_last k l
  | _ => None
  end.

Definition truthy (o : option json) : bool :=
  match o with
  | None | Some JNull => false
  | Some (JBool b) => b
  | Some (JNum z) => negb (Z.eqb z 0)
  | Some (JStr s) => match s with [] => false | _ => true end
  | Some (JArr _) | Some (JObj _) => true
  end.

Definition not_null (v : json) : bool := match v with JNull => false | _ => true end.

(** [!(!v.k1 || !v.k2 || ...)], [false] also when the read throws. *)
Definition fields_truthy (v : json) (ks : list str) : bool :=
  not_null v && forallb (fun k => truthy (get v k)) ks.

Definition no_brace_msg : str :=
  lit "LLM Output did not contain a JSON start bracket '{'.".

Definition parse_fail_msg (raw : str) : str :=
  lit "Failed to parse LLM output. Raw string was: " ++ raw.

(** The shared body of [runLLM_Command], [runLLM_Question_Command] and
    [runLLM_Topic_Command]: clean, parse, check, return. *)
Definition run_command (improved : bool) (check : json -> bool) (raw : str) : outcome :=
  match clean_json improved raw with
  | None => Throw no_brace_msg
  | Some s =>
      match json_parse s with
      | Some v => if check v then Ok v else Throw (parse_fail_msg raw)
      | None => Throw (parse_fail_msg raw)
      end
  end.

Definition question_fields : list str :=
  [lit "question_text"; lit "options"; lit "correct_answer"; lit "conductor_comment"].

(** [runLLM_Question_Command]: llm_service.js ([improved = false]) and
    part_001 ([improved = true]). *)
Definition runLLM_Question_Command (improved : bool) (raw : str) : outcome :=
  run_command improved (fun v => fields_truthy v question_fields) raw.

(** [runLLM_Topic_Command] *)
Definition runLLM_Topic_Command (improved : bool) (raw : str) : outcome :=
  run_command improved (fun v => fields_truthy v [lit "topics"; lit "conductor_comment"]) raw.

(** [runLLM_Command] of part_001, used by [updateStatus]:
    [!r.challenge_difficulty || r.score_adjustment === undefined ||
     !r.context_summary] rejects. *)
Definition runLLM_Command (raw : str) : outcome :=
  run_command true
    (fun v => not_null v && truthy (get v (lit "challenge_difficulty"))
              && match get v (lit "score_adjustment") with Some _ => true | None => false end
              && truthy (get v (lit "context_summary")))
    raw.

(** [runLLM_API_Call(prompt, schemaName)] of part_002: no field check; with
    [schemaName === ''] a text without ['{'] is returned as it is. *)
Definition runLLM_API_Call (schemaName raw : str) : outcome :=
  match clean_json true raw with
  | None =>
      match schemaName with
      | [] => Ok (JStr raw)
      | _ => Throw (lit "LLM Output for " ++ schemaName ++
                    lit " did not contain a JSON start bracket '{'.")
      end
  | Some s =>
      match json_parse s with
      | Some v => Ok v
      | None => Throw (lit "Failed to parse LLM output for " ++ schemaName ++
                       lit ". Raw string was: " ++ raw)
      end
  end.

(** ** Events emitted by the scenes to the React UI, and the UI phase *)

Inductive event : Type :=
| ConversationUpdate (message : str)
| TopicsReady (topics : json)
| QuestionReady (q : json)
| GuessProcessed (isCorrect : option bool) (correctAnswer : option json)
| GameStateUpdate (score : Z) (difficulty tone : option json) (phase : str)
    (isCorrect : bool) (scoreAdjustment : Z) (conductorComment : option json).

(** The [phase] field of the React [uiState], as the app.jsx handlers
    update it. *)
Definition on_event (phase : str) (e : event) : str :=
  match e with
  | TopicsReady _ => lit "topic_select"
  | QuestionReady _ => lit "quiz"
  | GameStateUpdate _ _ _ p _ _ _ => p
  | _ => phase
  end.

Definition ui_phase (phase : str) (es : list event) : str := fold_left on_event es phase.

Definition is_topics_ready (e : event) : bool :=
  match e with TopicsReady _ => true | _ => false end.

Definition is_question_ready (e : event) : bool :=
  match e with QuestionReady _ => true | _ => false end.

(** The verdict on a guess carried by the first event that reports one. *)
Fixpoint verdict (es : list event) : option bool :=
  match es with
  | [] => None
  | GuessProcessed (Some b) _ :: _ => Some b
  | GameStateUpdate _ _ _ _ b _ _ :: _ => Some b
  | _ :: r => verdict r
  end.

(** [guess === q.correct_answer] for a string [guess]. *)
Definition strict_eq_guess (guess : str) (o : option json) : bool :=
  match o with
  | Some (JStr c) => str_eqb guess c
  | _ => false
  end.

(** ** The app.jsx scene (Gemini API) *)
Module App.

Record scene : Type := {
  currentScore : Z;
  difficultyLevel : str;
  conversationTone : str;
  currentQuestionData : option json;
}.

(** What the backend does on the [i]-th [fetch] of one [callGeminiAPI]. *)
Inductive fetch_result : Type :=
| FetchOk (text : str)
| FetchNotOk
| FetchThrows.

Definition backend := nat -> fetch_result.

Definition MAX_RETRIES : nat := 5.

(** The [for] loop of [callGeminiAPI]: the generated text (or [None]
    when it throws after the loop) and the number of [fetch] calls. *)
Fixpoint gemini_loop (i fuel : nat) (b : backend) : option str * nat :=
  match fuel with
  | 0 => (None, 0)
  | S f =>
      match b i with
      | FetchOk t => (Some t, 1)
      | _ => let '(r, n) := gemini_loop (S i) f b in (r, S n)
      end
  end.

Definition callGeminiAPI (b : backend) : option str * nat := gemini_loop 0 MAX_RETRIES b.

Definition topics_error_msg : str :=
  lit "Error: Could not retrieve topics. Please refresh.".

Definition all_strings (l : list json) : bool :=
  forallb (fun x => match x with JStr _ => true | _ => false end) l.

(** [getTopics]: the events it emits. *)
Definition getTopics (b : backend) : list event :=
  match fst (callGeminiAPI b) with
  | None => [ConversationUpdate topics_error_msg]
  | Some text =>
      match json_parse text with
      | Some (JArr l) =>
          if negb (Nat.eqb (List.length l) 0) && all_strings l
          then [TopicsReady (JArr l)]
          else [ConversationUpdate topics_error_msg]
      | _ => [ConversationUpdate topics_error_msg]
      end
  end.

(** The difficulty/tone table of [processPlayerGuess]. *)
Definition level_of (score : Z) : str * str :=
  if (500 <=? score)%Z then (lit "Difficult", lit "Challenging")
  else if (200 <=? score)%Z then (lit "Medium", lit "Excited")
  else if (0 <=? score)%Z then (lit "Easy", lit "Normal")
  else (lit "Very Easy", lit "Sassy").

Definition fallback_comment (isCorrect : bool) : str :=
  if isCorrect then lit "Excellent! You earned points. Ready for the next one?"
  else lit "That's not quite right. Better luck on the next question!".

(** [processPlayerGuess(guess)] followed by [getConductorCommentary]:
    the new scene and the events emitted.  [saveGameState] only writes
    to Firestore. *)
Definition processPlayerGuess (st : scene) (guess : str) (b : backend)
    : scene * list event :=
  match currentQuestionData st with
  | None => (st, [])
  | Some q =>
      let correctAnswer := get q (lit "correct_answer") in
      let isCorrect := strict_eq_guess guess correctAnswer in
      let points := if isCorrect then 100%Z else (-50)%Z in
      let score := (currentScore st + points)%Z in
      let '(diff, tone) := level_of score in
      let st' := {| currentScore := score; difficultyLevel := diff;
                    conversationTone := tone;
                    currentQuestionData := currentQuestionData st |} in
      let comment := match fst (callGeminiAPI b) with
                     | Some c => c
                     | None => fallback_comment isCorrect
                     end in
      (st', [GuessProcessed None correctAnswer;
             GameStateUpdate score (Some (JStr diff)) (Some (JStr tone)) (lit "quiz_result")
               isCorrect points (Some (JStr comment))])
  end.

Definition win_msg : str :=
  lit "Congratulations! You have mastered the Music Trivia Challenge!".

(** [startNextRound()] *)
Definition startNextRound (st : scene) (b : backend) : list event :=
  if (1000 <=? currentScore st)%Z then [ConversationUpdate win_msg]
  else getTopics b.

(** Successive guesses, each answered by its own backend, on the
    installed question. *)
Fixpoint play (st : scene) (moves : list (str * backend)) : scene :=
  match moves with
  | [] => st
  | (guess, b) :: rest => play (fst (processPlayerGuess st guess b)) rest
  end.

(** The position of a difficulty on the ladder of [processPlayerGuess]. *)
Definition ladder_index (d : str) : option nat :=
  if str_eqb d (lit "Very Easy") then Some 0
  else if str_eqb d (lit "Easy") then Some 1
  else if str_eqb d (lit "Medium") then Some 2
  else if str_eqb d (lit "Difficult") then Some 3
  else None.

End App.

(** ** The Phaser scene of main.js (second [MusicTriviaScene]) and part_003,
    on the WebLLM service of llm_service.js / part_001 *)
Module Phaser.

(** The exported [gameState] object of the LLM service; a field the
    model left out is [None] ([undefined]). *)
Record game_state : Type := {
  score : Z;
  difficulty : option json;
  last_topic : str;
  conversation_tone : option json;
  game_history : option json;
}.

Record scene : Type := {
  gs : game_state;
  currentQuestionData : option json;
}.

Definition default_topics : json :=
  JArr [JStr (lit "80s Pop Music"); JStr (lit "Travel Trivia"); JStr (lit "SF Sports History")].

(** [getNewTopics()] on the generated text [raw]. *)
Definition getNewTopics (raw : str) : outcome :=
  match runLLM_Topic_Command false raw with
  | Ok data =>
      let topics := if truthy (get data (lit "topics")) then get data (lit "topics")
                    else Some (JArr [JStr (lit "Default Topic 1"); JStr (lit "Default Topic 2");
                                     JStr (lit "Default Topic 3")]) in
      let comment := if truthy (get data (lit "conductor_comment"))
                     then get data (lit "conductor_comment") else Some (JStr (lit "Welcome!")) in
      Ok (JObj ((match topics with Some t => [(lit "topics", t)] | None => [] end) ++
                (match comment with Some c => [(lit "comment", c)] | None => [] end)))
  | Throw m => Throw m
  end.

Definition warming_msg : str :=
  lit "Hold on, the Game Conductor is warming up the trivia engine...".

(** [showTopicSelection()]: the events it emits. *)
Definition showTopicSelection (raw : str) : list event :=
  let topics := match getNewTopics raw with
                | Ok topicData => match get topicData (lit "topics") with
                                  | Some t => t
                                  | None => JNull
                                  end
                | Throw _ => default_topics
                end in
  [ConversationUpdate warming_msg; TopicsReady topics].

Definition transmission_msg : str :=
  lit "Score update failed due to a transmission error!".

(** [processPlayerGuess(guess)] up to the delayed [startChallenge]:
    [topics_raw] is the text generated if topic selection restarts,
    [status_raw] the text generated for [updateStatus(guess)].  [None]
    when the model's [score_adjustment] is not a number: JavaScript's
    [+=] then coerces, which is outside the model. *)
Definition processPlayerGuess (st : scene) (guess topics_raw status_raw : str)
    : option (scene * list event) :=
  match currentQuestionData st with
  | None => Some (st, showTopicSelection topics_raw)
  | Some q =>
      let correct := get q (lit "correct_answer") in
      let isCorrect := strict_eq_guess guess correct in
      let ev := GuessProcessed (Some isCorrect) correct in
      match runLLM_Command status_raw with
      | Ok statusUpdate =>
          match get statusUpdate (lit "score_adjustment") with
          | Some (JNum adj) =>
              let g := gs st in
              let g' := {| score := (score g + adj)%Z;
                           difficulty := get statusUpdate (lit "challenge_difficulty");
                           last_topic := last_topic g;
                           conversation_tone := get statusUpdate (lit "conversation_tone");
                           game_history := get statusUpdate (lit "context_summary") |} in
              Some ({| gs := g'; currentQuestionData := currentQuestionData st |},
                    [ev; GameStateUpdate (score g') (difficulty g') (conversation_tone g')
                           (lit "quiz_result") isCorrect adj
                           (get statusUpdate (lit "conductor_comment"))])
          | _ => None
          end
      | Throw _ => Some (st, [ev; ConversationUpdate transmission_msg])
      end
  end.

End Phaser.

(** ** The first draft of [MusicTriviaScene] in main.js *)
Module Draft.

Record game_state : Type := {
  score : Z;
  difficulty : option json;
  history : option json;
}.

(** [processPlayerGuess(guess)] is [startChallenge(guess)]: the guess only
    goes into the prompt, and [getNextChallenge] returns
    [JSON.parse(response)] of the generated text [raw].  [None] when
    [score_adjustment] is not a number (JavaScript coercion). *)
Definition processPlayerGuess (st : game_state) (guess raw : str) : option game_state :=
  match json_parse raw with
  | None => Some st
  | Some challengeData =>
      match get challengeData (lit "score_adjustment") with
      | Some (JNum adj) =>
          Some {| score := (score st + adj)%Z;
                  difficulty := get challengeData (lit "challenge_difficulty");
                  history := get challengeData (lit "context_summary") |}
      | _ => None
      end
  end.

End Draft.

(** ** The React [App] component of app.jsx, with [getNewQuestion] of its
    scene *)
Module UI.

(** [uiState].  [loading], [isAuthReady] and [userId] are left out: none
    of the handlers below reads them.  A [None] field is [undefined];
    [null] is [JNull], and [None] in [isCorrect], which the handlers only
    set to [null] or to a boolean. *)
Record ui_state : Type := {
  score : Z;
  difficulty : option json;
  tone : option json;
  message : option json;
  topics : option json;
  question : option json;
  options : option json;
  correctAnswer : option json;
  lastGuess : json;
  phase : str;
  scoreAdjustment : Z;
  isCorrect : option bool;
}.

Definition initialUIState : ui_state := {|
  score := 0;
  difficulty := Some (JStr (lit "Very Easy"));
  tone := Some (JStr (lit "Normal"));
  message := Some (JStr (lit "Initializing Firebase & LLM..."));
  topics := Some (JArr []);
  question := Some JNull;
  options := Some (JArr []);
  correctAnswer := Some JNull;
  lastGuess := JNull;
  phase := lit "loading";
  scoreAdjustment := 0;
  isCorrect := None;
|}.

(** What the scene does to the UI: an event, or a call of
    [updateReactState({ message })], which also copies the scene's score,
    difficulty and tone. *)
Inductive action : Type :=
| Emit (e : event)
| UpdateReact (score : Z) (difficulty tone message : str).

Definition topic_select_msg : str :=
  lit "Choose Your Topic from the options below:".

(** [handleConversationUpdate], [handleTopicsReady], [handleQuestionReady],
    [handleGuessProcessed] and [handleGameStateUpdate]. *)
Definition handle (u : ui_state) (e : event) : ui_state :=
  match e with
  | ConversationUpdate m =>
      {| score := score u; difficulty := difficulty u; tone := tone u;
         message := Some (JStr m); topics := topics u; question := question u;
         options := options u; correctAnswer := correctAnswer u;
         lastGuess := lastGuess u; phase := phase u;
         scoreAdjustment := scoreAdjustment u; isCorrect := isCorrect u |}
  | TopicsReady t =>
      {| score := score u; difficulty := difficulty u; tone := tone u;
         message := Some (JStr topic_select_msg); topics := Some t;
         question := question u; options := options u;
         correctAnswer := correctAnswer u; lastGuess := lastGuess u;
         phase := lit "topic_select"; scoreAdjustment := scoreAdjustment u;
         isCorrect := isCorrect u |}
  | QuestionReady q =>
      {| score := score u; difficulty := difficulty u; tone := tone u;
         message := get q (lit "comment"); topics := topics u;
         question := get q (lit "question"); options := get q (lit "options");
         correctAnswer := Some JNull; lastGuess := JNull; phase := lit "quiz";
         scoreAdjustment := 0; isCorrect := None |}
  | GuessProcessed _ ca =>
      {| score := score u; difficulty := difficulty u; tone := tone u;
         message := message u; topics := topics u; question := question u;
         options := options u; correctAnswer := ca; lastGuess := lastGuess u;
         phase := phase u; scoreAdjustment := scoreAdjustment u;
         isCorrect := isCorrect u |}
  | GameStateUpdate s d t p ic adj c =>
      {| score := s; difficulty := d; tone := t; message := c;
         topics := topics u; question := question u; options := options u;
         correctAnswer := correctAnswer u; lastGuess := lastGuess u;
         phase := p; scoreAdjustment := adj; isCorrect := Some ic |}
  end.

Definition handle_all (u : ui_state) (es : list event) : ui_state :=
  fold_left handle es u.

(** [updateReactState({ message })] *)
Definition apply (u : ui_state) (a : action) : ui_state :=
  match a with
  | Emit e => handle u e
  | UpdateReact s d t m =>
      {| score := s; difficulty := Some (JStr d); tone := Some (JStr t);
         message := Some (JStr m); topics := topics u; question := question u;
         options := options u; correctAnswer := correctAnswer u;
         lastGuess := lastGuess u; phase := phase u;
         scoreAdjustment := scoreAdjustment u; isCorrect := isCorrect u |}
  end.

Definition apply_all (u : ui_state) (acts : list action) : ui_state :=
  fold_left apply acts u.

Definition is_jnull (v : json) : bool := match v with JNull => true | _ => false end.

(** [v === null] for a field that may be [undefined]. *)
Definition is_null (o : option json) : bool :=
  match o with Some JNull => true | _ => false end.

(** The click handlers; [attached] is [sceneRef.current] being set.
    [None]: the click does nothing.  [Some u']: the new [uiState], and
    the scene's method is called. *)
Definition handleTopicClick (attached : bool) (u : ui_state) (topic : str)
    : option ui_state :=
  if attached && str_eqb (phase u) (lit "topic_select") then
    Some {| score := score u; difficulty := difficulty u; tone := tone u;
            message := Some (JStr (lit "Topic " ++ topic ++ lit " selected. Loading challenge..."));
            topics := topics u; question := question u; options := options u;
            correctAnswer := correctAnswer u; lastGuess := lastGuess u;
            phase := lit "loading"; scoreAdjustment := scoreAdjustment u;
            isCorrect := isCorrect u |}
  else None.

Definition handleAnswerClick (attached : bool) (u : ui_state) (guess : json)
    : option ui_state :=
  if attached && str_eqb (phase u) (lit "quiz") && is_null (correctAnswer u) then
    Some {| score := score u; difficulty := difficulty u; tone := tone u;
            message := message u; topics := topics u; question := question u;
            options := options u; correctAnswer := correctAnswer u;
            lastGuess := guess; phase := phase u;
            scoreAdjustment := scoreAdjustment u; isCorrect := isCorrect u |}
  else None.

Definition continue_msg : str := lit "Conductor is preparing the next round...".

Definition handleContinueClick (attached : bool) (u : ui_state) : option ui_state :=
  if attached && str_eqb (phase u) (lit "quiz_result") then
    Some {| score := score u; difficulty := difficulty u; tone := tone u;
            message := Some (JStr continue_msg); topics := topics u;
            question := question u; options := options u;
            correctAnswer := correctAnswer u; lastGuess := lastGuess u;
            phase := lit "loading"; scoreAdjustment := scoreAdjustment u;
            isCorrect := isCorrect u |}
  else None.

(** The [onClick] of an answer button:
    [uiState.lastGuess === null && handleAnswerClick(option)]. *)
Definition click_answer (attached : bool) (u : ui_state) (opt : json) : option ui_state :=
  if is_jnull (lastGuess u) then handleAnswerClick attached u opt else None.

(** The enabled buttons of the interaction area. *)
Inductive control : Type :=
| TopicButton (topic : json)
| AnswerButton (opt : json)
| ContinueButton.

Definition array_of (o : option json) : option (list json) :=
  match o with Some (JArr l) => Some l | _ => None end.

(** The buttons the interaction area renders enabled, for [topics] and
    [options] holding arrays ([None] otherwise: [.length] and [.map] on
    other values are outside the model).  An answer button is
    [disabled] once [lastGuess] is not [null]; the option buttons of
    the result phase are all [disabled]. *)
Definition controls (u : ui_state) : option (list control) :=
  if str_eqb (phase u) (lit "topic_select") then
    option_map (map TopicButton) (array_of (topics u))
  else if str_eqb (phase u) (lit "quiz") then
    option_map (fun l => if is_jnull (lastGuess u) then map AnswerButton l else [])
      (array_of (options u))
  else if str_eqb (phase u) (lit "quiz_result") then
    option_map (fun l => match l with [] => [] | _ => [ContinueButton] end)
      (array_of (options u))
  else Some [].

(** The text beside the score in the result phase. *)
Definition score_banner (u : ui_state) : option str :=
  if str_eqb (phase u) (lit "quiz_result") then
    Some (if (0 <? scoreAdjustment u)%Z
          then "+"%char :: ser_num (scoreAdjustment u) ++ lit " Points!"
          else ser_num (scoreAdjustment u) ++ lit " Points!")
  else None.

Record conductor_props : Type := {
  style : str;
  messageStyle : str;
  conductorTitle : str;
  imageSrc : str;
}.

Definition tone_is (u : ui_state) (t : string) : bool :=
  match tone u with Some (JStr s) => str_eqb s (lit t) | _ => false end.

Definition base_style : str :=
  lit "border-4 shadow-xl p-2 rounded-full transform transition-all duration-300".

Definition base_message_style : str := lit "text-xl font-bold text-center p-3 rounded-lg".

Definition host_image : str := lit "https://placehold.co/150x150/0f766e/f8fafc?text=HOST".

(** [getConductorImageProps(state)] *)
Definition getConductorImageProps (u : ui_state) : conductor_props :=
  if tone_is u "Excited" then
    {| style := base_style ++ lit " border-green-500 scale-105";
       messageStyle := base_message_style ++ lit " bg-green-900/50 text-green-300";
       conductorTitle := lit "The Conductor (Thrilled!)";
       imageSrc := lit "https://placehold.co/150x150/16a34a/f8fafc?text=EXCITED" |}
  else if tone_is u "Sassy" then
    {| style := base_style ++ lit " border-pink-500 rotate-1 ";
       messageStyle := base_message_style ++ lit " bg-pink-900/50 text-pink-300";
       conductorTitle := lit "The Conductor (Sassy)";
       imageSrc := lit "https://placehold.co/150x150/db2777/f8fafc?text=SASSY" |}
  else if tone_is u "Challenging" then
    {| style := base_style ++ lit " border-red-500 scale-95";
       messageStyle := base_message_style ++ lit " bg-red-900/50 text-red-300";
       conductorTitle := lit "The Conductor (Challenging!)";
       imageSrc := lit "https://placehold.co/150x150/dc2626/f8fafc?text=CHALLENGE" |}
  else
    {| style := base_style ++ lit " border-teal-500";
       messageStyle := base_message_style ++ lit " bg-teal-900/50 text-teal-300";
       conductorTitle := lit "The Conductor";
       imageSrc := host_image |}.

(** [c.toUpperCase()] for a Latin-1 character: [None] for the two whose
    upper case lies outside Latin-1. *)
Definition upper_char (c : ascii) : option str :=
  let n := nat_of_ascii c in
  if (97 <=? n) && (n <=? 122) then Some [ascii_of_nat (n - 32)]
  else if n =? 223 then Some (lit "SS")
  else if (224 <=? n) && (n <=? 254) && negb (n =? 247) then Some [ascii_of_nat (n - 32)]
  else if (n =? 181) || (n =? 255) then None
  else Some [c].

Fixpoint to_upper (s : str) : option str :=
  match s with
  | [] => Some []
  | c :: r =>
      match upper_char c, to_upper r with
      | Some x, Some y => Some (x ++ y)
      | _, _ => None
      end
  end.

Definition correct_image : str := lit "https://placehold.co/150x150/10b981/f8fafc?text=CORRECT!".
Definition wrong_image : str := lit "https://placehold.co/150x150/ef4444/f8fafc?text=WRONG!".

(** [getCharacterImageProps(state)]: [(style, imageSrc)]; [None] when
    [state.difficulty] is not a string ([substring] throws). *)
Definition getCharacterImageProps (u : ui_state) : option (str * str) :=
  if str_eqb (phase u) (lit "quiz_result") then
    Some (match isCorrect u with
          | Some true => (base_style ++ lit " border-green-500 scale-110 shadow-green-500/50",
                          correct_image)
          | _ => (base_style ++ lit " border-red-500 scale-90 shadow-red-500/50", wrong_image)
          end)
  else
    match difficulty u with
    | Some (JStr d) =>
        option_map (fun up => (base_style ++ lit " border-blue-500",
                               lit "https://placehold.co/150x150/3b82f6/f8fafc?text=LVL%20" ++ up))
          (to_upper (firstn 1 d))
    | _ => None
    end.

Definition snag_msg : str :=
  lit "Apologies, I hit a snag getting the question. Let's try another topic.".

(** [parsedJson.question && Array.isArray(parsedJson.options) &&
    parsedJson.options.length === 4]; on [null] the read throws and the
    [catch] takes the same path as a failed check. *)
Definition question_ok (v : json) : bool :=
  not_null v && truthy (get v (lit "question")) &&
  match get v (lit "options") with
  | Some (JArr l) => Nat.eqb (List.length l) 4
  | _ => false
  end.

(** [getNewQuestion(topic)] of the app.jsx scene: the new scene and what
    it does to the UI.  [this.game.events.contextTopics] is never set, so
    the topics sent back on failure are [[]]. *)
Definition getNewQuestion (st : App.scene) (topic : str) (b : App.backend)
    : App.scene * list action :=
  let start := UpdateReact (App.currentScore st) (App.difficultyLevel st)
                 (App.conversationTone st) (lit "Generating question on " ++ topic ++ lit "...") in
  let fail := (st, [start; Emit (ConversationUpdate snag_msg); Emit (TopicsReady (JArr []))]) in
  match fst (App.callGeminiAPI b) with
  | None => fail
  | Some text =>
      match json_parse text with
      | Some v =>
          if question_ok v then
            ({| App.currentScore := App.currentScore st;
                App.difficultyLevel := App.difficultyLevel st;
                App.conversationTone := App.conversationTone st;
                App.currentQuestionData := Some v |},
             [start; Emit (QuestionReady v)])
          else fail
      | None => fail
      end
  end.

End UI.

(** ** [getRandomTwoElements] of part_001 *)

Definition topic_pool : list str :=
  map lit ["80s Music"; "90s Music"; "Heavy Rock"; "Punk Rock"; "Pop Music";
           "Music (anything goes)"; "International Cuisine"; "Travel"; "Famous Capitals";
           "Sports in San Francisco"; "U2"; "Gay Pop Culture"; "Metallica";
           "Cinema Entertainment"; "Email Marketting"; "Wresting"; "Geography"; "Science";
           "Arabic language"; "Iraq"; "Spain"; "Granada"; "Liverpool"; "Big Bear California";
           "New York City"; "Hardly Strictly Bluegrass"; "Beenies"; "Black Color";
           "Music Venues"; "Music Venues in San Francisco"; "Classic Rock"; "Hip-Hop";
           "World Music"; "Indie Music"; "Alternative Music"; "Habibi"; "Softball";
           "FIFA videogame"; "Gummies"; "Inner Sunset San Francisco"; "San Jose California";
           "Famous Concerts"; "California"; "Boardgames"; "Guitars"; "Bay Area";
           "Liverpool FC"; "History"; "Modern Comedians"; "San Francisco culture"]%string.

(** The [do ... while (index1 === index2)] loop; [draws k] is
    [Math.floor(Math.random() * length)] at the [k]-th call.  [None] when
    the loop has not exited within [fuel] rounds. *)
Fixpoint draw_second (fuel index1 : nat) (draws : nat -> nat) (k : nat) : option nat :=
  match fuel with
  | 0 => None
  | S f =>
      let index2 := draws k in
      if Nat.eqb index1 index2 then draw_second f index1 draws (S k) else Some index2
  end.

(** [getRandomTwoElements()]: [Some None] is [return null], an element
    [None] is [undefined]; [Array.isArray(arr)] holds for the literal. *)
Definition getRandomTwoElements (draws : nat -> nat) (fuel : nat)
    : option (option (list (option str))) :=
  let arr := topic_pool in
  if Nat.ltb (List.length arr) 2 then Some None
  else
    let index1 := draws 0 in
    match draw_second fuel index1 draws 1 with
    | Some index2 => Some (Some [nth_error arr index1; nth_error arr index2])
    | None => None
    end.

(** ** Definitions used by the proofs *)

(** A decimal numeral whose first digit is not [0]. *)
Definition nonzero_head (u : Decimal.uint) : Prop :=
  match u with
  | Decimal.Nil | Decimal.D0 _ => False
  | _ => True
  end.

(** What may follow a value inside a serialised text. *)
Definition follow_ok (rest : str) : bool :=
  match rest with
  | [] => true
  | c :: _ => ascii_eqb c ","%char || ascii_eqb c "]"%char || ascii_eqb c "}"%char
  end.

(** The text [JSON.stringify] writes after the first element of an
    array, and after the first member of an object. *)
Fixpoint arr_tl (r : list json) : str :=
  match r with
  | [] => ["]"%char]
  | y :: r' => ","%char :: ser y ++ arr_tl r'
  end.

Fixpoint obj_tl (r : list (str * json)) : str :=
  match r with
  | [] => ["}"%char]
  | (k, y) :: r' => ","%char :: ser_str k ++ ":"%char :: ser y ++ obj_tl r'
  end.

(** The fuel [p_value] needs on the serialisation of a value. *)
Fixpoint jsize (v : json) : nat :=
  match v with
  | JArr l => S (S (fold_right (fun x acc => S (jsize x + acc)) 0 l))
  | JObj l => S (S (fold_right (fun kx acc => S (S (jsize (snd kx) + acc))) 0 l))
  | _ => 1
  end.

(** Induction on [json] through the elements of arrays and objects. *)
Section JsonInd.
Variable P : json -> Prop.
Hypothesis HNull : P JNull.
Hypothesis HBool : forall b, P (JBool b).
Hypothesis HNum : forall z, P (JNum z).
Hypothesis HStr : forall s, P (JStr s).
Hypothesis HArr : forall l, Forall P l -> P (JArr l).
Hypothesis HObj : forall l, Forall (fun kx => P (snd kx)) l -> P (JObj l).

Fixpoint json_ind' (v : json) : P v :=
  match v with
  | JNull => HNull
  | JBool b => HBool b
  | JNum z => HNum z
  | JStr s => HStr s
  | JArr l => HArr l ((fix go (l : list json) : Forall P l :=
                        match l with
                        | [] => Forall_nil _
                        | x :: r => Forall_cons _ (json_ind' x) (go r)
                        end) l)
  | JObj l => HObj l ((fix go (l : list (str * json)) : Forall (fun kx => P (snd kx)) l :=
                        match l with
                        | [] => Forall_nil _
                        | kx :: r => Forall_cons _ (json_ind' (snd kx)) (go r)
                        end) l)
  end.
End JsonInd.

(** The characters a serialised number starts with. *)
Definition num_heads : str := lit "-0123456789".

(** [p_value] reads back the serialisation of [v]. *)
Definition pv_ok (v : json) : Prop :=
  forall n rest, jsize v <= n -> follow_ok rest = true -> p_value n (ser v ++ rest) = Some (v, rest).

(** The rung of the ladder that [level_of] picks for a score. *)
Definition rung (s : Z) : nat :=
  if (500 <=? s)%Z then 3 else if (200 <=? s)%Z then 2 else if (0 <=? s)%Z then 1 else 0.

(** The first action of [getNewQuestion]. *)
Definition new_question_start (st : App.scene) (topic : str) : UI.action :=
  UI.UpdateReact (App.currentScore st) (App.difficultyLevel st) (App.conversationTone st)
    (lit "Generating question on " ++ topic ++ lit "...").

(** The shape of every string the clean-up hands to [JSON.parse]. *)
Definition brace_or_empty (s : str) : Prop := s = [] \/ exists r, s = "{"%char :: r.

Fixpoint nodupb (l : list str) : bool :=
  match l with
  | [] => true
  | x :: r => negb (existsb (str_eqb x) r) && nodupb r
  end.

(** ** Sample inputs *)

(** A question as the model is asked to produce it. *)
Definition sample_question : json :=
  JObj [(lit "question_text", JStr (lit "Which band released Take On Me?"));
        (lit "options", JArr [JStr (lit "a-ha"); JStr (lit "Duran Duran");
                              JStr (lit "Wham!"); JStr (lit "Europe")]);
        (lit "correct_answer", JStr (lit "a-ha"));
        (lit "conductor_comment", JStr (lit "An easy one."))].

(** A reply to [updateStatus] with the given [score_adjustment] and
    [challenge_difficulty]. *)
Definition status_reply (adj : string) (diff : string) : str :=
  jlit ("{'challenge_difficulty': '" ++ diff ++ "', 'score_adjustment': " ++ adj ++
        ", 'conversation_tone': 'Excited', 'context_summary': 'round 2'}")%string.

Definition sample_phaser_scene : Phaser.scene :=
  {| Phaser.gs := {| Phaser.score := 0; Phaser.difficulty := Some (JStr (lit "Easy"));
                     Phaser.last_topic := lit "80s Pop Music";
                     Phaser.conversation_tone := Some (JStr (lit "Normal"));
                     Phaser.game_history := None |};
     Phaser.currentQuestionData := Some sample_question |}.

Definition sample_app_scene (score : Z) (q : option json) : App.scene :=
  {| App.currentScore := score; App.difficultyLevel := fst (App.level_of score);
     App.conversationTone := snd (App.level_of score); App.currentQuestionData := q |}.

(** A backend whose every [fetch] answers [text]. *)
Definition answers (text : str) : App.backend := fun _ => App.FetchOk text.

(** A question in the format the app.jsx prompt asks for. *)
Definition app_question : json :=
  JObj [(lit "question", JStr (lit "Which band released Take On Me?"));
        (lit "options", JArr [JStr (lit "a-ha"); JStr (lit "Duran Duran");
                              JStr (lit "Wham!"); JStr (lit "Europe")]);
        (lit "correct_answer", JStr (lit "a-ha"));
        (lit "comment", JStr (lit "An easy one."))].

(** The same with two options only. *)
Definition two_option_question : json :=
  JObj [(lit "question", JStr (lit "Which band released Take On Me?"));
        (lit "options", JArr [JStr (lit "a-ha"); JStr (lit "Europe")]);
        (lit "correct_answer", JStr (lit "a-ha"));
        (lit "comment", JStr (lit "An easy one."))].

(** Four options and no [correct_answer]. *)
Definition no_answer_question : json :=
  JObj [(lit "question", JStr (lit "Which band released Take On Me?"));
        (lit "options", JArr [JStr (lit "a-ha"); JStr (lit "Duran Duran");
                              JStr (lit "Wham!"); JStr (lit "Europe")]);
        (lit "comment", JStr (lit "An easy one."))].

(** A reply to [updateStatus] in the tone its prompt asks for after a
    right answer. *)
Definition thrilled_status : json :=
  JObj [(lit "challenge_difficulty", JStr (lit "Medium"));
        (lit "score_adjustment", JNum 1);
        (lit "conversation_tone", JStr (lit "Thrilled"));
        (lit "context_summary", JStr (lit "round 2"));
        (lit "conductor_comment", JStr (lit "Sharp!"))].

Definition topic_reply : json :=
  JObj [(lit "topics", JArr [JStr (lit "Classic Rock"); JStr (lit "Hip-Hop")]);
        (lit "conductor_comment", JStr (lit "Pick one!"))].

(** Random draws that repeat the first index twice. *)
Definition repeat_draws (k : nat) : nat := if k <? 3 then 7 else 12.

(** * Properties *)

(** ** Sample runs of the parser and of the clean-up *)

Example json_parse_ex1 :
  json_parse (jlit " {'a': [1, -20, true, null], 'b': 'x\ny'} ") =
  Some (JObj [(lit "a", JArr [JNum 1; JNum (-20); JBool true; JNull]);
              (lit "b", JStr (lit "x" ++ [ascii_of_nat 10] ++ lit "y"))]).
Proof. vm_compute. reflexivity. Qed.

Example json_parse_ex2 : json_parse (lit "{} x") = None.
Proof. vm_compute. reflexivity. Qed.

Example json_parse_ex3 : json_parse (lit "01") = None.
Proof. vm_compute. reflexivity. Qed.

Example clean_ex1 :
  clean_json true (jlit "Sure! Here it is: ```json
{'a': 1}
``` Enjoy.") = Some (jlit "{'a': 1}").
Proof. vm_compute. reflexivity. Qed.

Example clean_ex2 :
  clean_json false (jlit "{'a': 1}
```.") = Some (jlit "{'a': 1}
```").
Proof. vm_compute. reflexivity. Qed.

(** ** [JSON.parse] reads back [JSON.stringify] *)

Lemma p_str_esc (c : ascii) (r : str) : p_str (esc_char c ++ r) = str_cons c (p_str r).
Proof. destruct c as [[] [] [] [] [] [] [] []]; reflexivity. Qed.

Lemma p_str_ser (k rest : str) : p_str (flat_map esc_char k ++ quote :: rest) = Some (k, rest).
Proof.
  induction k as [|c k IH]; [reflexivity|].
  simpl. rewrite <- List.app_assoc, p_str_esc, IH. reflexivity.
Qed.

Lemma nzhead_not_D0 (u : Decimal.uint) : Decimal.nzhead u = Decimal.D0 u -> False.
Proof.
  intros H. pose proof (nb_digits_nzhead u) as Hl. rewrite H in Hl. simpl in Hl. lia.
Qed.

Lemma unorm_fixed (u : Decimal.uint) :
  Decimal.unorm u = u -> u = Decimal.D0 Decimal.Nil \/ nonzero_head u.
Proof.
  unfold Decimal.unorm.
  destruct u as [|u|u|u|u|u|u|u|u|u|u]; cbn [nonzero_head Decimal.nzhead]; intros H; auto; try discriminate.
  destruct (Decimal.nzhead u) eqn:E; [left; congruence| exfalso; apply (nzhead_not_D0 u); rewrite E; congruence ..].
Qed.

Lemma nzhead_fixed (u : Decimal.uint) :
  Decimal.nzhead u = u -> u <> Decimal.Nil -> nonzero_head u.
Proof.
  destruct u as [|u|u|u|u|u|u|u|u|u|u]; cbn [nonzero_head Decimal.nzhead]; intros H Hn; auto.
  apply (nzhead_not_D0 u); exact H.
Qed.

Lemma to_int_shape (z : Z) :
  match Z.to_int z with
  | Decimal.Pos u => u = Decimal.D0 Decimal.Nil \/ nonzero_head u
  | Decimal.Neg u => nonzero_head u
  end.
Proof.
  pose proof (DecimalZ.to_of (Z.to_int z)) as H. rewrite DecimalZ.of_to in H.
  destruct (Z.to_int z) as [u|u]; unfold Decimal.norm in H.
  - injection H as H. apply unorm_fixed. congruence.
  - destruct (Decimal.nzhead u) eqn:E; try discriminate;
    injection H as H; subst; apply nzhead_fixed; congruence.
Qed.

Lemma follow_ok_digit (rest : str) :
  follow_ok rest = true -> span_digits rest = (Decimal.Nil, rest) /\ frac_or_exp_start rest = false.
Proof.
  destruct rest as [|c r]; [auto|].
  simpl. intros H.
  repeat (apply orb_true_iff in H; destruct H as [H|H]);
    apply Ascii.eqb_eq in H; subst; split; reflexivity.
Qed.

Lemma span_uint (u : Decimal.uint) (rest : str) :
  follow_ok rest = true -> span_digits (uint_str u ++ rest) = (u, rest).
Proof.
  intros Hf. induction u; simpl;
    try (rewrite IHu; reflexivity).
  apply follow_ok_digit; exact Hf.
Qed.

Lemma p_num_ser (z : Z) (rest : str) :
  follow_ok rest = true -> p_num (ser_num z ++ rest) = Some (z, rest).
Proof.
  intros Hf. pose proof (to_int_shape z) as Hsh. pose proof (DecimalZ.of_to z) as Hz.
  destruct (follow_ok_digit rest Hf) as [Hsd Hfe].
  unfold p_num, ser_num.
  destruct (Z.to_int z) as [u|u]; subst z.
  - destruct u as [|u|u|u|u|u|u|u|u|u|u];
      try (destruct Hsh as [Hsh|Hsh]; [discriminate|contradiction]);
      [destruct Hsh as [Hsh|Hsh]; [injection Hsh as ->|contradiction]|..];
      simpl; try rewrite span_uint by assumption; rewrite ?Hsd, Hfe; reflexivity.
  - destruct u as [|u|u|u|u|u|u|u|u|u|u]; try contradiction;
      simpl; rewrite span_uint by assumption; rewrite Hfe; reflexivity.
Qed.

Lemma ser_arr_cons (x : json) (r : list json) : ser (JArr (x :: r)) = "["%char :: ser x ++ arr_tl r.
Proof. reflexivity. Qed.

Lemma ser_obj_cons (k : str) (x : json) (r : list (str * json)) :
  ser (JObj ((k, x) :: r)) = "{"%char :: ser_str k ++ ":"%char :: ser x ++ obj_tl r.
Proof. reflexivity. Qed.

Lemma ser_num_head (z : Z) : exists c t, ser_num z = c :: t /\ In c num_heads.
Proof.
  pose proof (to_int_shape z) as Hsh. unfold ser_num.
  destruct (Z.to_int z) as [u|u].
  - destruct u as [|u|u|u|u|u|u|u|u|u|u];
      [destruct Hsh as [Hsh|Hsh]; [discriminate|contradiction]|..];
      eexists; eexists; split; try reflexivity; simpl; tauto.
  - eexists; eexists; split; [reflexivity|]. simpl; tauto.
Qed.

Lemma ser_head (v : json) :
  exists c t, ser v = c :: t /\ is_json_ws c = false /\ ascii_eqb c "]"%char = false.
Proof.
  destruct v as [|[]|z|s|[|x l]|[|[k x] l]]; try (eexists; eexists; split; [reflexivity|]; split; reflexivity).
  destruct (ser_num_head z) as (c & t & H & Hin). exists c, t. split; [exact H|].
  simpl in Hin. repeat (destruct Hin as [<-|Hin]; [split; reflexivity|]). contradiction.
Qed.

Lemma skip_ws_ser (v : json) (s : str) : skip_ws (ser v ++ s) = ser v ++ s.
Proof.
  destruct (ser_head v) as (c & t & H & Hw & _). rewrite H. simpl. rewrite Hw. reflexivity.
Qed.

Lemma p_arr_first_ser (m : nat) (x : json) (s : str) :
  p_arr_first (S m) (ser x ++ s) =
  match p_value m (ser x ++ s) with Some (y, r1) => p_arr_rest m r1 [y] | None => None end.
Proof.
  cbn [p_arr_first]. rewrite skip_ws_ser.
  destruct (ser_head x) as (c & t & H & _ & Hb). rewrite H. simpl. rewrite Hb. reflexivity.
Qed.

Lemma follow_arr_tl (r : list json) (rest : str) : follow_ok (arr_tl r ++ rest) = true.
Proof. destruct r; reflexivity. Qed.

Lemma follow_obj_tl (r : list (str * json)) (rest : str) : follow_ok (obj_tl r ++ rest) = true.
Proof. destruct r as [|[k y] r]; reflexivity. Qed.

Lemma p_arr_rest_ser (r : list json) :
  Forall pv_ok r -> forall m acc rest,
  S (fold_right (fun x acc => S (jsize x + acc)) 0 r) <= m -> follow_ok rest = true ->
  p_arr_rest m (arr_tl r ++ rest) acc = Some (JArr (acc ++ r), rest).
Proof.
  induction 1 as [|y r' Hy Hr IH]; intros m acc rest Hm Hf; destruct m as [|m]; try lia.
  - simpl. rewrite List.app_nil_r. reflexivity.
  - simpl in Hm |- *. rewrite <- List.app_assoc.
    rewrite Hy; [|lia|apply follow_arr_tl].
    rewrite IH by (lia || assumption). rewrite <- List.app_assoc. reflexivity.
Qed.

Lemma skip_ws_nonws (c : ascii) (s : str) : is_json_ws c = false -> skip_ws (c :: s) = c :: s.
Proof. intros H. simpl. rewrite H. reflexivity. Qed.

Lemma p_member_ser (m : nat) (k : str) (y : json) (s : str) :
  pv_ok y -> S (jsize y) <= m -> follow_ok s = true ->
  p_member m (ser_str k ++ ":"%char :: ser y ++ s) = Some ((k, y), s).
Proof.
  intros Hy Hm Hf. destruct m as [|m]; [lia|]. cbn [p_member]. unfold ser_str. simpl.
  rewrite <- List.app_assoc. simpl. rewrite p_str_ser. simpl. rewrite Hy by (lia || assumption). reflexivity.
Qed.

Lemma p_obj_rest_ser (r : list (str * json)) :
  Forall (fun kx => pv_ok (snd kx)) r -> forall m acc rest,
  S (fold_right (fun kx acc => S (S (jsize (snd kx) + acc))) 0 r) <= m -> follow_ok rest = true ->
  p_obj_rest m (obj_tl r ++ rest) acc = Some (JObj (acc ++ r), rest).
Proof.
  induction 1 as [|[k y] r' Hy Hr IH]; intros m acc rest Hm Hf; destruct m as [|m]; try lia.
  - simpl. rewrite List.app_nil_r. reflexivity.
  - simpl in Hm, Hy.
    assert (E : obj_tl ((k, y) :: r') ++ rest =
                ","%char :: ser_str k ++ ":"%char :: ser y ++ (obj_tl r' ++ rest)).
    { simpl. rewrite <- !List.app_assoc. simpl. rewrite <- !List.app_assoc. reflexivity. }
    rewrite E. cbn [p_obj_rest]. rewrite skip_ws_nonws by reflexivity.
    change (ascii_eqb ","%char ","%char) with true. cbv iota beta.
    rewrite p_member_ser; [|exact Hy|lia|apply follow_obj_tl].
    rewrite IH by (lia || assumption). rewrite <- List.app_assoc. reflexivity.
Qed.

Lemma p_obj_first_ser (m : nat) (k : str) (s : str) :
  p_obj_first (S m) (ser_str k ++ s) =
  match p_member m (ser_str k ++ s) with Some (kx, r1) => p_obj_rest m r1 [kx] | None => None end.
Proof.
  cbn [p_obj_first].
  assert (E : skip_ws (ser_str k ++ s) = quote :: (flat_map esc_char k ++ [quote]) ++ s) by reflexivity.
  rewrite E. change (ascii_eqb quote "}"%char) with false. cbv iota beta. reflexivity.
Qed.

Lemma p_value_ser (v : json) : pv_ok v.
Proof.
  induction v as [| b | z | s | l IH | l IH] using json_ind'; intros n rest Hn Hf;
    destruct n as [|n]; simpl in Hn; try lia.
  - reflexivity.
  - destruct b; reflexivity.
  - destruct (ser_num_head z) as (c & t & H & Hin).
    assert (Hp : p_num (c :: t ++ rest) = Some (z, rest)).
    { pose proof (p_num_ser z rest Hf) as E. rewrite H in E. exact E. }
    change (ser (JNum z)) with (ser_num z). rewrite H. cbn [app p_value].
    simpl in Hin.
    repeat (destruct Hin as [<-|Hin];
            [rewrite skip_ws_nonws by reflexivity; rewrite Hp; reflexivity|]).
    contradiction.
  - simpl. rewrite <- List.app_assoc. simpl. rewrite p_str_ser. reflexivity.
  - destruct l as [|x r]; [destruct n; [lia|reflexivity]|].
    inversion IH as [|? ? Hx Hr]; subst. simpl in Hn. destruct n as [|m]; [lia|].
    rewrite ser_arr_cons. cbn [app p_value]. rewrite skip_ws_nonws by reflexivity.
    change (ascii_eqb "["%char "{"%char) with false. change (ascii_eqb "["%char "["%char) with true.
    cbv iota beta.
    rewrite <- List.app_assoc, p_arr_first_ser.
    rewrite Hx; [|lia|apply follow_arr_tl].
    rewrite p_arr_rest_ser; [reflexivity|exact Hr|lia|exact Hf].
  - destruct l as [|[k x] r]; [destruct n; [lia|reflexivity]|].
    inversion IH as [|? ? Hx Hr]; subst. simpl in Hn, Hx. destruct n as [|m]; try lia.
    rewrite ser_obj_cons. cbn [app p_value]. rewrite skip_ws_nonws by reflexivity.
    change (ascii_eqb "{"%char "{"%char) with true. cbv iota beta.
    rewrite <- List.app_assoc. simpl app at 2. rewrite <- List.app_assoc. rewrite p_obj_first_ser.
    rewrite p_member_ser; [|exact Hx|lia|apply follow_obj_tl].
    rewrite p_obj_rest_ser; [reflexivity|exact Hr|lia|exact Hf].
Qed.

Lemma ser_num_length (z : Z) : 1 <= List.length (ser_num z).
Proof. destruct (ser_num_head z) as (c & t & -> & _). simpl. lia. Qed.

Lemma jsize_ser (v : json) : jsize v <= 2 * List.length (ser v).
Proof.
  induction v as [| b | z | s | l IH | l IH] using json_ind'.
  - simpl. lia.
  - destruct b; simpl; lia.
  - simpl. pose proof (ser_num_length z). lia.
  - simpl. lia.
  - destruct l as [|x r]; [simpl; lia|].
    inversion IH as [|? ? Hx Hr]; subst. rewrite ser_arr_cons.
    assert (Ht : S (fold_right (fun x acc => S (jsize x + acc)) 0 r) <= 2 * List.length (arr_tl r)).
    { clear Hx IH. induction Hr as [|y r' Hy Hr' IHr]; simpl; [lia|].
      rewrite List.length_app. lia. }
    simpl. rewrite List.length_app. lia.
  - destruct l as [|[k x] r]; [simpl; lia|].
    inversion IH as [|? ? Hx Hr]; subst. rewrite ser_obj_cons. simpl in Hx.
    assert (Ht : S (fold_right (fun kx acc => S (S (jsize (snd kx) + acc))) 0 r)
                 <= 2 * List.length (obj_tl r)).
    { clear Hx IH. induction Hr as [|[k' y] r' Hy Hr' IHr]; simpl; [lia|].
      simpl in Hy. rewrite !List.length_app. simpl. rewrite ?List.length_app. lia. }
    simpl. rewrite !List.length_app. simpl. rewrite ?List.length_app. lia.
Qed.

Lemma json_parse_ser (v : json) : json_parse (ser v) = Some v.
Proof.
  unfold json_parse.
  pose proof (p_value_ser v (3 * List.length (ser v) + 3) [] ltac:(pose proof (jsize_ser v); lia)
                eq_refl) as H.
  rewrite List.app_nil_r in H. rewrite H. reflexivity.
Qed.

(** ** The clean-up keeps an object wrapped in prose *)

Lemma trim_start_app (p t : str) (c : ascii) :
  is_js_ws c = false -> trim_start (p ++ c :: t) = trim_start p ++ c :: t.
Proof.
  intros Hc. induction p as [|a p IH]; simpl; [rewrite Hc; reflexivity|].
  destruct (is_js_ws a); [exact IH|reflexivity].
Qed.

Lemma trim_start_in (p : str) (x : ascii) : In x (trim_start p) -> In x p.
Proof.
  induction p as [|a p IH]; simpl; [tauto|].
  destruct (is_js_ws a); simpl; tauto.
Qed.

Lemma trim_end_app (s q : str) (c : ascii) :
  is_js_ws c = false -> trim_end ((s ++ [c]) ++ q) = (s ++ [c]) ++ trim_end q.
Proof.
  intros Hc. unfold trim_end.
  rewrite List.rev_app_distr, List.rev_app_distr. simpl.
  rewrite trim_start_app by exact Hc.
  rewrite List.rev_app_distr. simpl. rewrite List.rev_involutive. reflexivity.
Qed.

Lemma trim_end_in (q : str) (x : ascii) : In x (trim_end q) -> In x q.
Proof.
  unfold trim_end. intros H.
  apply (proj2 (List.in_rev _ _)), trim_start_in, (proj2 (List.in_rev _ _)) in H. exact H.
Qed.

Lemma from_first_app (c : ascii) (p s : str) : ~ In c p -> from_first c (p ++ s) = from_first c s.
Proof.
  induction p as [|a p IH]; simpl; intros Hn; [reflexivity|].
  destruct (ascii_eqb c a) eqn:E.
  - apply Ascii.eqb_eq in E. subst. tauto.
  - apply IH. tauto.
Qed.

Lemma obj_tl_last (r : list (str * json)) : exists b, obj_tl r = b ++ ["}"%char].
Proof.
  induction r as [|[k y] r [b IH]]; [exists []; reflexivity|].
  cbn [obj_tl]. rewrite IH. exists (","%char :: ser_str k ++ ":"%char :: ser y ++ b).
  simpl. rewrite <- !List.app_assoc. simpl. rewrite <- !List.app_assoc. reflexivity.
Qed.

Lemma ser_obj_shape (l : list (str * json)) :
  exists a b, ser (JObj l) = "{"%char :: a /\ ser (JObj l) = b ++ ["}"%char].
Proof.
  destruct l as [|[k x] r].
  - exists ["}"%char], ["{"%char]. split; reflexivity.
  - destruct (obj_tl_last r) as [b Hb]. rewrite ser_obj_cons.
    exists (ser_str k ++ ":"%char :: ser x ++ obj_tl r), ("{"%char :: ser_str k ++ ":"%char :: ser x ++ b).
    split; [reflexivity|]. rewrite Hb.
    simpl. rewrite <- !List.app_assoc. simpl. rewrite <- !List.app_assoc. reflexivity.
Qed.

Lemma strip_tail_ser (f : nat) (b : str) : strip_tail f (b ++ ["}"%char]) = b ++ ["}"%char].
Proof.
  destruct f; [reflexivity|]. simpl.
  unfold ends_with. rewrite List.rev_app_distr. reflexivity.
Qed.

Lemma strip_fence_ser (b : str) : strip_fence (b ++ ["}"%char]) = b ++ ["}"%char].
Proof. unfold strip_fence, ends_with. rewrite List.rev_app_distr. reflexivity. Qed.

Lemma clean_json_wrap (p q : str) (l : list (str * json)) :
  ~ In "{"%char p -> ~ In "}"%char q ->
  clean_json true (p ++ ser (JObj l) ++ q) = Some (ser (JObj l)).
Proof.
  intros Hp Hq. destruct (ser_obj_shape l) as (a & b & Ha & Hb).
  assert (E1 : trim_start (p ++ ser (JObj l) ++ q) = trim_start p ++ ser (JObj l) ++ q).
  { rewrite Ha. exact (trim_start_app p (a ++ q) "{"%char eq_refl). }
  assert (E2 : trim_end ((trim_start p ++ ser (JObj l)) ++ q) =
               (trim_start p ++ ser (JObj l)) ++ trim_end q).
  { rewrite Hb, List.app_assoc. apply trim_end_app. reflexivity. }
  assert (E3 : from_first "{"%char (ser (JObj l) ++ trim_end q) = Some (ser (JObj l) ++ trim_end q)).
  { rewrite Ha. reflexivity. }
  assert (E4 : upto_last "}"%char (ser (JObj l) ++ trim_end q) = Some (ser (JObj l))).
  { unfold upto_last. rewrite List.rev_app_distr, from_first_app
      by (intros H; apply Hq, trim_end_in, List.in_rev, H).
    rewrite Hb, List.rev_app_distr. simpl. rewrite List.rev_involutive. reflexivity. }
  unfold clean_json, js_trim. rewrite E1, List.app_assoc, E2, <- List.app_assoc.
  rewrite from_first_app by (intros H; apply Hp, trim_start_in, H).
  rewrite E3. cbv beta iota zeta. rewrite E4.
  unfold strip_trailing. rewrite Hb, strip_fence_ser, strip_tail_ser. reflexivity.
Qed.

(** ** Helper facts for the claims *)

Lemma clean_json_no_brace (improved : bool) (raw : str) :
  ~ In "{"%char raw -> clean_json improved raw = None.
Proof.
  intros H. unfold clean_json, js_trim.
  rewrite <- (List.app_nil_r (trim_end (trim_start raw))), from_first_app; [reflexivity|].
  intros Hin. apply H, trim_start_in, trim_end_in, Hin.
Qed.

Lemma getTopics_shape (b : App.backend) :
  App.getTopics b = [ConversationUpdate App.topics_error_msg] \/
  exists l, App.getTopics b = [TopicsReady (JArr l)].
Proof.
  unfold App.getTopics.
  destruct (fst (App.callGeminiAPI b)) as [text|]; [|left; reflexivity].
  destruct (json_parse text) as [[| | | |l|]|]; try (left; reflexivity).
  destruct (negb (Nat.eqb (List.length l) 0) && App.all_strings l); [right; eauto|left; reflexivity].
Qed.

Lemma gemini_loop_count (i fuel : nat) (b : App.backend) : (snd (App.gemini_loop i fuel b) <= fuel)%nat.
Proof.
  revert i. induction fuel as [|f IH]; intros i; simpl; [lia|].
  destruct (b i); simpl; try lia;
    specialize (IH (S i)); destruct (App.gemini_loop (S i) f b); simpl in *; lia.
Qed.

Lemma app_guess_scene (st : App.scene) (guess : str) (b : App.backend) (q : json) :
  App.currentQuestionData st = Some q ->
  let ok := strict_eq_guess guess (get q (lit "correct_answer")) in
  let s := (App.currentScore st + if ok then 100 else -50)%Z in
  fst (App.processPlayerGuess st guess b) =
  {| App.currentScore := s; App.difficultyLevel := fst (App.level_of s);
     App.conversationTone := snd (App.level_of s); App.currentQuestionData := Some q |} /\
  verdict (snd (App.processPlayerGuess st guess b)) = Some ok.
Proof.
  intros Hq. unfold App.processPlayerGuess. rewrite Hq. cbv zeta.
  destruct (App.level_of _) as [d t] eqn:E. simpl. split; reflexivity.
Qed.

Lemma ladder_level (s : Z) : App.ladder_index (fst (App.level_of s)) = Some (rung s).
Proof.
  unfold App.level_of, rung.
  destruct (500 <=? s)%Z; [reflexivity|]. destruct (200 <=? s)%Z; [reflexivity|].
  destruct (0 <=? s)%Z; reflexivity.
Qed.

Lemma rung_step (s d : Z) : (d = 100 \/ d = -50)%Z ->
  (rung (s + d) <= rung s + 1 /\ rung s <= rung (s + d) + 1)%nat.
Proof.
  intros Hd. unfold rung.
  destruct (Z.leb_spec 500 s), (Z.leb_spec 200 s), (Z.leb_spec 0 s),
    (Z.leb_spec 500 (s + d)), (Z.leb_spec 200 (s + d)), (Z.leb_spec 0 (s + d)); lia.
Qed.

(** C1 (corrected).  A record returned by [runLLM_Question_Command]
    (llm_service.js and part_001) is the [JSON.parse] of the cleaned text
    and has its four fields [question_text], [options], [correct_answer]
    and [conductor_comment] truthy; nothing checks the number of options
    or that the answer is one of them. *)
Theorem question_accepted (improved : bool) (raw : str) (v : json) :
  runLLM_Question_Command improved raw = Ok v ->
  (exists s, clean_json improved raw = Some s /\ json_parse s = Some v) /\
  fields_truthy v question_fields = true.
Proof.
  unfold runLLM_Question_Command, run_command.
  destruct (clean_json improved raw) as [s|]; [|discriminate].
  destruct (json_parse s) as [w|] eqn:Ep; [|discriminate].
  destruct (fields_truthy w question_fields) eqn:F; [|discriminate].
  intros H. injection H as <-. split; [exists s; split; [reflexivity|exact Ep]|exact F].
Qed.

Lemma question_accepted_witness :
  runLLM_Question_Command true (ser sample_question) = Ok sample_question /\
  fields_truthy sample_question question_fields = true.
Proof.
  assert (H : runLLM_Question_Command true (ser sample_question) = Ok sample_question)
    by (vm_compute; reflexivity).
  split; [exact H|]. exact (proj2 (question_accepted true _ _ H)).
Defined.

Lemma question_two_options_accepted :
  let raw := jlit "{'question_text': 'Q', 'options': ['A', 'B'], 'correct_answer': 'Z', 'conductor_comment': 'c'}" in
  let v := JObj [(lit "question_text", JStr (lit "Q"));
                 (lit "options", JArr [JStr (lit "A"); JStr (lit "B")]);
                 (lit "correct_answer", JStr (lit "Z"));
                 (lit "conductor_comment", JStr (lit "c"))] in
  runLLM_Question_Command true raw = Ok v /\ runLLM_Question_Command false raw = Ok v.
Proof. split; vm_compute; reflexivity. Qed.

(** C5 (corrected).  On a text with no ['{'] the WebLLM commands throw
    the fixed message [no_brace_msg], which does not carry the text;
    [runLLM_API_Call] of part_002 throws a message naming the schema, and
    with the schema name [''] returns the text itself. *)
Theorem no_brace_outcomes (raw : str) :
  ~ In "{"%char raw ->
  (forall improved, runLLM_Question_Command improved raw = Throw no_brace_msg /\
                    runLLM_Topic_Command improved raw = Throw no_brace_msg) /\
  runLLM_Command raw = Throw no_brace_msg /\
  runLLM_API_Call [] raw = Ok (JStr raw) /\
  (forall schemaName, schemaName <> [] ->
     runLLM_API_Call schemaName raw =
     Throw (lit "LLM Output for " ++ schemaName ++ lit " did not contain a JSON start bracket '{'.")).
Proof.
  intros H.
  unfold runLLM_Question_Command, runLLM_Topic_Command, runLLM_Command, runLLM_API_Call, run_command.
  rewrite !clean_json_no_brace by exact H.
  split; [intros improved; rewrite clean_json_no_brace by exact H; split; reflexivity|].
  split; [reflexivity|]. split; [reflexivity|].
  intros [|c s] Hs; [contradiction|reflexivity].
Qed.

Lemma no_brace_outcomes_witness :
  ~ In "{"%char (lit "hello") /\ runLLM_Command (lit "hello") = Throw no_brace_msg.
Proof.
  assert (H : ~ In "{"%char (lit "hello")) by (simpl; intuition discriminate).
  split; [exact H|]. exact (proj1 (proj2 (no_brace_outcomes _ H))).
Defined.

Lemma no_brace_returns_text :
  runLLM_API_Call [] (lit "hello") = Ok (JStr (lit "hello")) /\
  runLLM_Question_Command true (lit "hello") = Throw no_brace_msg.
Proof. split; vm_compute; reflexivity. Qed.

(** C4 (corrected).  The clean-up of part_001/part_002 (first ['{'] to
    last ['}'], then fence and trailing clean-up) extracts exactly the
    serialisation of an object wrapped in a prefix with no ['{'] and a
    suffix with no ['}'] (prose, markdown fences), and [runLLM_API_Call]
    returns that object. *)
Theorem wrapped_object_roundtrip (schemaName p q : str) (l : list (str * json)) :
  ~ In "{"%char p -> ~ In "}"%char q ->
  clean_json true (p ++ ser (JObj l) ++ q) = Some (ser (JObj l)) /\
  runLLM_API_Call schemaName (p ++ ser (JObj l) ++ q) = Ok (JObj l).
Proof.
  intros Hp Hq. pose proof (clean_json_wrap p q l Hp Hq) as H. split; [exact H|].
  unfold runLLM_API_Call. rewrite H, json_parse_ser. reflexivity.
Qed.

Lemma wrapped_object_roundtrip_witness :
  let p := lit "Sure! Here is the JSON: ```json" ++ newline in
  let q := newline ++ lit "``` Have fun." in
  let l := [(lit "challenge_difficulty", JStr (lit "Easy")); (lit "score_adjustment", JNum 1)] in
  ~ In "{"%char p /\ ~ In "}"%char q /\
  runLLM_API_Call (lit "Status") (p ++ ser (JObj l) ++ q) = Ok (JObj l).
Proof.
  intros p q l.
  assert (Hp : ~ In "{"%char p) by (simpl; intuition discriminate).
  assert (Hq : ~ In "}"%char q) by (simpl; intuition discriminate).
  split; [exact Hp|]. split; [exact Hq|].
  exact (proj2 (wrapped_object_roundtrip (lit "Status") p q l Hp Hq)).
Defined.

Lemma brace_in_prose_breaks_roundtrip :
  let obj := JObj [(lit "topics", JArr [JStr (lit "Jazz")]); (lit "conductor_comment", JStr (lit "Hi"))] in
  runLLM_API_Call (lit "TopicSchema") (lit "Use the form { topics }: " ++ ser obj) <> Ok obj /\
  match clean_json false (ser obj ++ lit " Enjoy!") with
  | Some s => json_parse s
  | None => None
  end = None.
Proof. split; [vm_compute; discriminate|vm_compute; reflexivity]. Qed.

(** C3 (corrected).  The app.jsx scene and the Phaser scene of main.js /
    part_003 judge a guess locally: the verdict they report is
    [guess === correct_answer], whatever the backend or the model's texts. *)
Theorem guess_judged_locally :
  (forall st guess b q, App.currentQuestionData st = Some q ->
     verdict (snd (App.processPlayerGuess st guess b)) =
     Some (strict_eq_guess guess (get q (lit "correct_answer")))) /\
  (forall st guess topics_raw status_raw q r, Phaser.currentQuestionData st = Some q ->
     Phaser.processPlayerGuess st guess topics_raw status_raw = Some r ->
     verdict (snd r) = Some (strict_eq_guess guess (get q (lit "correct_answer")))).
Proof.
  split.
  - intros st guess b q Hq. exact (proj2 (app_guess_scene st guess b q Hq)).
  - intros st guess traw sraw q r Hq. unfold Phaser.processPlayerGuess. rewrite Hq.
    destruct (runLLM_Command sraw) as [u|m].
    + destruct (get u (lit "score_adjustment")) as [[| | | | |]|]; try discriminate.
      intros H. injection H as <-. reflexivity.
    + intros H. injection H as <-. reflexivity.
Qed.

Lemma guess_judged_locally_witness :
  verdict (snd (App.processPlayerGuess (sample_app_scene 0 (Some sample_question)) (lit "a-ha")
                  (answers (lit "Well done")))) = Some true /\
  verdict (snd (App.processPlayerGuess (sample_app_scene 0 (Some sample_question)) (lit "a-ha")
                  (fun _ => App.FetchThrows))) = Some true /\
  Phaser.processPlayerGuess sample_phaser_scene (lit "Europe") [] (status_reply "1" "Medium") <> None.
Proof.
  split; [exact (proj1 guess_judged_locally (sample_app_scene 0 (Some sample_question)) (lit "a-ha")
                  (answers (lit "Well done")) sample_question eq_refl)|].
  split; [exact (proj1 guess_judged_locally (sample_app_scene 0 (Some sample_question)) (lit "a-ha")
                  (fun _ => App.FetchThrows) sample_question eq_refl)|].
  vm_compute. discriminate.
Defined.

Lemma draft_reply_decides :
  let st := {| Draft.score := 0; Draft.difficulty := None; Draft.history := None |} in
  option_map Draft.score (Draft.processPlayerGuess st (lit "a-ha") (status_reply "1" "Easy")) = Some 1%Z /\
  option_map Draft.score (Draft.processPlayerGuess st (lit "a-ha") (status_reply "-1" "Easy")) = Some (-1)%Z.
Proof. split; vm_compute; reflexivity. Qed.

(** C2 (corrected).  In app.jsx a guess moves the score by exactly +100
    or -50, so N correct answers add 100 N whatever the backend answers;
    the Phaser scene of main.js / part_003 adds the model's
    [score_adjustment] to the score as it is. *)
Lemma app_play_question (st : App.scene) (moves : list (str * App.backend)) (q : json) :
  App.currentQuestionData st = Some q ->
  Forall (fun m => strict_eq_guess (fst m) (get q (lit "correct_answer")) = true) moves ->
  App.currentScore (App.play st moves) = (App.currentScore st + 100 * Z.of_nat (List.length moves))%Z.
Proof.
  intros Hq Hm. revert st Hq. induction Hm as [|[g b] moves Hg Hm IH]; intros st Hq; cbn [App.play List.length]; [lia|].
  destruct (app_guess_scene st g b q Hq) as [Hs _]. cbv zeta in Hs. cbn [fst] in Hg. rewrite Hg in Hs.
  rewrite IH by (rewrite Hs; reflexivity). rewrite Hs. cbn [App.currentScore]. lia.
Qed.

Theorem score_rule :
  (forall st guess b q, App.currentQuestionData st = Some q ->
     App.currentScore (fst (App.processPlayerGuess st guess b)) =
     (App.currentScore st +
      if strict_eq_guess guess (get q (lit "correct_answer")) then 100 else -50)%Z) /\
  (forall st moves q, App.currentQuestionData st = Some q ->
     Forall (fun m => strict_eq_guess (fst m) (get q (lit "correct_answer")) = true) moves ->
     App.currentScore (App.play st moves) = (App.currentScore st + 100 * Z.of_nat (List.length moves))%Z) /\
  (forall st guess topics_raw status_raw q u adj r, Phaser.currentQuestionData st = Some q ->
     runLLM_Command status_raw = Ok u -> get u (lit "score_adjustment") = Some (JNum adj) ->
     Phaser.processPlayerGuess st guess topics_raw status_raw = Some r ->
     Phaser.score (Phaser.gs (fst r)) = (Phaser.score (Phaser.gs st) + adj)%Z).
Proof.
  split; [|split].
  - intros st guess b q Hq. rewrite (proj1 (app_guess_scene st guess b q Hq)). reflexivity.
  - intros st moves q. apply app_play_question.
  - intros st guess traw sraw q u adj r Hq Hu Ha. unfold Phaser.processPlayerGuess.
    rewrite Hq, Hu, Ha. intros H. injection H as <-. reflexivity.
Qed.

Lemma score_rule_witness :
  App.currentScore (App.play (sample_app_scene 0 (Some sample_question))
                     [(lit "a-ha", answers (lit "Great")); (lit "a-ha", answers (lit "Again"))]) = 200%Z /\
  option_map (fun r => Phaser.score (Phaser.gs (fst r)))
    (Phaser.processPlayerGuess sample_phaser_scene (lit "a-ha") [] (status_reply "1" "Medium")) = Some 1%Z.
Proof.
  split.
  - rewrite (proj1 (proj2 score_rule) (sample_app_scene 0 (Some sample_question))
             [(lit "a-ha", answers (lit "Great")); (lit "a-ha", answers (lit "Again"))] sample_question eq_refl);
      [reflexivity|repeat constructor].
  - assert (Hu : runLLM_Command (status_reply "1" "Medium") =
                 Ok (JObj [(lit "challenge_difficulty", JStr (lit "Medium")); (lit "score_adjustment", JNum 1);
                           (lit "conversation_tone", JStr (lit "Excited"));
                           (lit "context_summary", JStr (lit "round 2"))]))
      by (vm_compute; reflexivity).
    destruct (Phaser.processPlayerGuess sample_phaser_scene (lit "a-ha") [] (status_reply "1" "Medium"))
      as [r|] eqn:E; [|vm_compute in E; discriminate].
    simpl. f_equal. exact (proj2 (proj2 score_rule) sample_phaser_scene (lit "a-ha") [] (status_reply "1" "Medium")
             sample_question _ 1%Z r eq_refl Hu eq_refl E).
Defined.

Lemma model_score_applied :
  option_map (fun r => Phaser.score (Phaser.gs (fst r)))
    (Phaser.processPlayerGuess sample_phaser_scene (lit "a-ha") [] (status_reply "1000000" "Expert"))
  = Some 1000000%Z.
Proof. vm_compute. reflexivity. Qed.

(** C6 (corrected).  [callGeminiAPI] repeats a request only when the
    [fetch] fails or the response is not OK, at most [MAX_RETRIES] fetches
    in all; [getTopics] does not retry a text that fails its checks, offers
    no default topics, and then emits only its error notice, which leaves
    the UI phase where it was. *)
Theorem topics_failure_handling (b : App.backend) :
  (snd (App.callGeminiAPI b) <= App.MAX_RETRIES)%nat /\
  (forall text, b 0%nat = App.FetchOk text -> App.callGeminiAPI b = (Some text, 1%nat)) /\
  (App.getTopics b = [ConversationUpdate App.topics_error_msg] \/
   exists l, App.getTopics b = [TopicsReady (JArr l)]) /\
  (forall phase, existsb is_topics_ready (App.getTopics b) = false ->
     ui_phase phase (App.getTopics b) = phase).
Proof.
  split; [apply gemini_loop_count|]. split.
  - intros text Hb. unfold App.callGeminiAPI. simpl. rewrite Hb. reflexivity.
  - split; [apply getTopics_shape|].
    intros phase. destruct (getTopics_shape b) as [-> | [l ->]]; [reflexivity|discriminate].
Qed.

Lemma topics_failure_handling_witness :
  App.callGeminiAPI (answers (lit "oops")) = (Some (lit "oops"), 1%nat) /\
  ui_phase (lit "loading") (App.getTopics (answers (lit "oops"))) = lit "loading".
Proof.
  split.
  - exact (proj1 (proj2 (topics_failure_handling (answers (lit "oops")))) (lit "oops") eq_refl).
  - exact (proj2 (proj2 (proj2 (topics_failure_handling (answers (lit "oops"))))) (lit "loading") eq_refl).
Defined.

Lemma invalid_topics_not_retried :
  App.callGeminiAPI (answers (lit "Here are some topics!")) = (Some (lit "Here are some topics!"), 1%nat) /\
  App.getTopics (answers (lit "Here are some topics!")) = [ConversationUpdate App.topics_error_msg] /\
  ui_phase (lit "loading") (App.getTopics (answers (lit "Here are some topics!"))) = lit "loading".
Proof. split; [|split]; vm_compute; reflexivity. Qed.

(** C7 (corrected).  [showTopicSelection] of main.js offers the built-in
    topics when [runLLM_Topic_Command] throws, and always moves the UI to
    topic selection; [getTopics] of app.jsx has no fallback: it emits the
    topics it got or its error notice. *)
Theorem topic_fallback :
  (forall raw msg, runLLM_Topic_Command false raw = Throw msg ->
     Phaser.showTopicSelection raw =
     [ConversationUpdate Phaser.warming_msg; TopicsReady Phaser.default_topics]) /\
  (forall raw phase, ui_phase phase (Phaser.showTopicSelection raw) = lit "topic_select") /\
  (forall b, App.getTopics b = [ConversationUpdate App.topics_error_msg] \/
             exists l, App.getTopics b = [TopicsReady (JArr l)]).
Proof.
  split; [|split].
  - intros raw msg H. unfold Phaser.showTopicSelection, Phaser.getNewTopics. rewrite H. reflexivity.
  - intros raw phase. reflexivity.
  - exact getTopics_shape.
Qed.

Lemma topic_fallback_witness :
  runLLM_Topic_Command false (lit "no topics today") = Throw no_brace_msg /\
  Phaser.showTopicSelection (lit "no topics today") =
  [ConversationUpdate Phaser.warming_msg; TopicsReady Phaser.default_topics].
Proof.
  assert (H : runLLM_Topic_Command false (lit "no topics today") = Throw no_brace_msg)
    by (vm_compute; reflexivity).
  split; [exact H|]. exact (proj1 topic_fallback _ _ H).
Defined.

Lemma empty_topics_no_fallback :
  App.getTopics (answers (lit "[]")) = [ConversationUpdate App.topics_error_msg].
Proof. vm_compute. reflexivity. Qed.

(** C8 (corrected).  [startNextRound] of app.jsx: from a score of 1000
    it only sends the congratulation message (no new round, the phase is
    unchanged); below 1000 it runs [getTopics], a topic selection, and
    emits no question. *)
Theorem next_round (st : App.scene) (b : App.backend) :
  ((1000 <= App.currentScore st)%Z ->
     App.startNextRound st b = [ConversationUpdate App.win_msg] /\
     forall phase, ui_phase phase (App.startNextRound st b) = phase) /\
  ((App.currentScore st < 1000)%Z ->
     App.startNextRound st b = App.getTopics b /\
     existsb is_question_ready (App.startNextRound st b) = false).
Proof.
  unfold App.startNextRound. split; intros H.
  - apply Z.leb_le in H. rewrite H. split; reflexivity.
  - apply Z.leb_gt in H. rewrite H. split; [reflexivity|].
    destruct (getTopics_shape b) as [-> | [l ->]]; reflexivity.
Qed.

Lemma next_round_witness :
  App.startNextRound (sample_app_scene 1000 None) (answers (lit "[]")) = [ConversationUpdate App.win_msg] /\
  App.startNextRound (sample_app_scene 0 None) (answers (lit "[]")) = App.getTopics (answers (lit "[]")).
Proof.
  split.
  - exact (proj1 (proj1 (next_round (sample_app_scene 1000 None) (answers (lit "[]")))
                   ltac:(vm_compute; discriminate))).
  - exact (proj1 (proj2 (next_round (sample_app_scene 0 None) (answers (lit "[]")))
                   ltac:(vm_compute; reflexivity))).
Defined.

Lemma next_round_asks_topics :
  let b := answers (jlit "['Jazz', 'Disco', 'Grunge']") in
  existsb is_question_ready (App.startNextRound (sample_app_scene 300 (Some sample_question)) b) = false /\
  ui_phase (lit "quiz_result") (App.startNextRound (sample_app_scene 300 (Some sample_question)) b) =
  lit "topic_select".
Proof. split; vm_compute; reflexivity. Qed.

(** C9 (corrected).  In app.jsx, from a state whose difficulty matches
    its score (or the initial 0 / Very Easy), one guess moves the
    difficulty at most one rung along Very Easy, Easy, Medium, Difficult
    and never off that ladder. *)
Theorem difficulty_one_step (st : App.scene) (guess : str) (b : App.backend) (q : json) :
  App.currentQuestionData st = Some q ->
  (App.difficultyLevel st = fst (App.level_of (App.currentScore st)) \/
   (App.currentScore st = 0%Z /\ App.difficultyLevel st = lit "Very Easy")) ->
  exists i j,
    App.ladder_index (App.difficultyLevel st) = Some i /\
    App.ladder_index (App.difficultyLevel (fst (App.processPlayerGuess st guess b))) = Some j /\
    (j <= i + 1 /\ i <= j + 1)%nat.
Proof.
  intros Hq Hd. destruct (app_guess_scene st guess b q Hq) as [Hs _]. cbv zeta in Hs. rewrite Hs.
  cbn [App.difficultyLevel]. rewrite ladder_level.
  set (d := if strict_eq_guess guess (get q (lit "correct_answer")) then 100%Z else (-50)%Z).
  assert (Hd' : (d = 100 \/ d = -50)%Z) by (unfold d; destruct (strict_eq_guess _ _); auto).
  destruct Hd as [Hd | [Hz Hd]].
  - rewrite Hd, ladder_level. exists (rung (App.currentScore st)), (rung (App.currentScore st + d)).
    split; [reflexivity|]. split; [reflexivity|]. apply rung_step; exact Hd'.
  - rewrite Hd, Hz. exists 0%nat, (rung (0 + d)). split; [reflexivity|]. split; [reflexivity|].
    destruct Hd' as [-> | ->]; vm_compute; lia.
Qed.

Lemma difficulty_one_step_witness :
  let st := sample_app_scene 150 (Some sample_question) in
  App.difficultyLevel st = fst (App.level_of (App.currentScore st)) /\
  exists i j,
    App.ladder_index (App.difficultyLevel st) = Some i /\
    App.ladder_index (App.difficultyLevel (fst (App.processPlayerGuess st (lit "a-ha")
                                                (answers (lit "Up you go"))))) = Some j /\
    (j <= i + 1 /\ i <= j + 1)%nat.
Proof.
  intros st. split; [reflexivity|].
  exact (difficulty_one_step st (lit "a-ha") (answers (lit "Up you go")) sample_question eq_refl
           (or_introl eq_refl)).
Defined.

Lemma model_difficulty_applied :
  option_map (fun r => Phaser.difficulty (Phaser.gs (fst r)))
    (Phaser.processPlayerGuess sample_phaser_scene (lit "a-ha") [] (status_reply "100" "Expert"))
  = Some (Some (JStr (lit "Expert"))) /\
  App.ladder_index (lit "Expert") = None.
Proof. split; vm_compute; reflexivity. Qed.

(** C10 (confirmed).  With no question installed, [processPlayerGuess]
    of app.jsx / part_000 returns the scene unchanged with no event, and
    the one of main.js / part_003 keeps the scene and only restarts topic
    selection. *)
Theorem no_question_no_update :
  (forall st guess b, App.currentQuestionData st = None ->
     App.processPlayerGuess st guess b = (st, [])) /\
  (forall st guess topics_raw status_raw, Phaser.currentQuestionData st = None ->
     Phaser.processPlayerGuess st guess topics_raw status_raw =
     Some (st, Phaser.showTopicSelection topics_raw)).
Proof.
  split.
  - intros st guess b H. unfold App.processPlayerGuess. rewrite H. reflexivity.
  - intros st guess traw sraw H. unfold Phaser.processPlayerGuess. rewrite H. reflexivity.
Qed.

Lemma no_question_no_update_witness :
  App.processPlayerGuess (sample_app_scene 40 None) (lit "a-ha") (answers (lit "x")) =
    (sample_app_scene 40 None, []) /\
  Phaser.processPlayerGuess {| Phaser.gs := Phaser.gs sample_phaser_scene; Phaser.currentQuestionData := None |}
    (lit "a-ha") [] (status_reply "5" "Hard") =
  Some ({| Phaser.gs := Phaser.gs sample_phaser_scene; Phaser.currentQuestionData := None |},
        Phaser.showTopicSelection []).
Proof.
  split.
  - exact (proj1 no_question_no_update (sample_app_scene 40 None) (lit "a-ha") (answers (lit "x")) eq_refl).
  - exact (proj2 no_question_no_update
             {| Phaser.gs := Phaser.gs sample_phaser_scene; Phaser.currentQuestionData := None |}
             (lit "a-ha") [] (status_reply "5" "Hard") eq_refl).
Defined.

(** * Further properties of the scenes and of the React UI *)

(** ** Helper facts *)

Lemma str_eqb_eq (s t : str) : str_eqb s t = true -> s = t.
Proof.
  revert t. induction s as [|a s IH]; intros [|b t]; simpl; try discriminate; [reflexivity|].
  intros H. apply andb_prop in H as [Hab H]. apply Ascii.eqb_eq in Hab. subst.
  f_equal. apply IH, H.
Qed.

Lemma str_eqb_refl (s : str) : str_eqb s s = true.
Proof. induction s as [|a s IH]; simpl; [reflexivity|]. rewrite IH, andb_true_r. apply Ascii.eqb_refl. Qed.

Lemma handle_lastGuess (u : UI.ui_state) (e : event) :
  is_question_ready e = false -> UI.lastGuess (UI.handle u e) = UI.lastGuess u.
Proof. destruct e; simpl; congruence. Qed.

Lemma handle_all_lastGuess (u : UI.ui_state) (es : list event) :
  forallb (fun e => negb (is_question_ready e)) es = true ->
  UI.lastGuess (UI.handle_all u es) = UI.lastGuess u.
Proof.
  unfold UI.handle_all. revert u.
  induction es as [|e es IH]; intros u H; simpl in *; [reflexivity|].
  apply andb_prop in H as [He Hes]. rewrite IH by exact Hes.
  apply handle_lastGuess. now destruct (is_question_ready e).
Qed.

Lemma getNewQuestion_cases (st : App.scene) (topic : str) (b : App.backend) :
  (exists text v, fst (App.callGeminiAPI b) = Some text /\ json_parse text = Some v /\
     UI.question_ok v = true /\
     UI.getNewQuestion st topic b =
     ({| App.currentScore := App.currentScore st; App.difficultyLevel := App.difficultyLevel st;
         App.conversationTone := App.conversationTone st; App.currentQuestionData := Some v |},
      [new_question_start st topic; UI.Emit (QuestionReady v)])) \/
  UI.getNewQuestion st topic b =
  (st, [new_question_start st topic; UI.Emit (ConversationUpdate UI.snag_msg);
        UI.Emit (TopicsReady (JArr []))]).
Proof.
  unfold UI.getNewQuestion. destruct (fst (App.callGeminiAPI b)) as [text|]; [|right; reflexivity].
  destruct (json_parse text) as [v|] eqn:Ep; [|right; reflexivity].
  destruct (UI.question_ok v) eqn:Eq; [|right; reflexivity].
  left. exists text, v. repeat split; assumption.
Qed.

Lemma question_ok_spec (v : json) :
  UI.question_ok v = true ->
  truthy (get v (lit "question")) = true /\
  exists l, get v (lit "options") = Some (JArr l) /\ List.length l = 4.
Proof.
  unfold UI.question_ok. intros H. apply andb_prop in H as [H H4].
  apply andb_prop in H as [_ Hq]. split; [exact Hq|].
  destruct (get v (lit "options")) as [[| | | | l |]|]; try discriminate.
  exists l. split; [reflexivity|]. apply Nat.eqb_eq, H4.
Qed.

Lemma getNewQuestion_emits (st : App.scene) (topic : str) (b : App.backend) (v : json) :
  In (UI.Emit (QuestionReady v)) (snd (UI.getNewQuestion st topic b)) ->
  exists text, fst (App.callGeminiAPI b) = Some text /\ json_parse text = Some v /\
    UI.question_ok v = true /\
    UI.getNewQuestion st topic b =
    ({| App.currentScore := App.currentScore st; App.difficultyLevel := App.difficultyLevel st;
        App.conversationTone := App.conversationTone st; App.currentQuestionData := Some v |},
     [new_question_start st topic; UI.Emit (QuestionReady v)]).
Proof.
  destruct (getNewQuestion_cases st topic b) as [(text & w & Ht & Hp & Hok & E)|E];
    rewrite E; simpl; intros H.
  - destruct H as [H|[H|[]]]; [discriminate|]. injection H as ->.
    exists text. repeat split; assumption.
  - destruct H as [H|[H|[H|[]]]]; discriminate.
Qed.

Lemma tone_is_other (u : UI.ui_state) (t : string) :
  (forall s, UI.tone u = Some (JStr s) -> s <> lit t) -> UI.tone_is u t = false.
Proof.
  unfold UI.tone_is. intros H. destruct (UI.tone u) as [[| | | s | |]|]; try reflexivity.
  destruct (str_eqb s (lit t)) eqn:E; [|reflexivity].
  exfalso. apply (H s eq_refl), str_eqb_eq, E.
Qed.

Lemma length_trim_start (s : str) : List.length (trim_start s) <= List.length s.
Proof. induction s as [|c s IH]; simpl; [lia|]. destruct (is_js_ws c); simpl; lia. Qed.

Lemma length_js_trim (s : str) : List.length (js_trim s) <= List.length s.
Proof.
  unfold js_trim, trim_end. rewrite List.length_rev.
  pose proof (length_trim_start (rev (trim_start s))). rewrite List.length_rev in H.
  pose proof (length_trim_start s). lia.
Qed.

Lemma length_removelast (s : str) : List.length (removelast s) = pred (List.length s).
Proof.
  induction s as [|a s IH]; [reflexivity|].
  destruct s as [|b s]; [reflexivity|]. cbn [removelast]. simpl in *. rewrite IH. reflexivity.
Qed.

(** Each round of the [while] loop shortens the string, so [length s]
    rounds reach its exit. *)
Lemma strip_tail_exit (f : nat) (s : str) :
  List.length s <= f ->
  ends_with dot (strip_tail f s) = false /\ ends_with newline (strip_tail f s) = false.
Proof.
  revert s. induction f as [|f IH]; intros s Hs.
  - destruct s; [split; reflexivity|simpl in Hs; lia].
  - cbn [strip_tail]. destruct (ends_with dot s || ends_with newline s) eqn:E.
    + apply IH. destruct s as [|c s]; [discriminate|].
      pose proof (length_js_trim (slice_drop_last (c :: s))).
      unfold slice_drop_last in *. rewrite length_removelast in H.
      cbn [List.length pred] in *. lia.
    + apply orb_false_iff in E. exact E.
Qed.

Lemma js_trim_brace (x : str) : exists y, js_trim ("{"%char :: x) = "{"%char :: y.
Proof.
  unfold js_trim, trim_end. cbn [trim_start is_js_ws]. simpl rev.
  rewrite (trim_start_app (rev x) [] "{"%char eq_refl), List.rev_app_distr.
  eexists. reflexivity.
Qed.

Lemma from_first_brace (s t : str) : from_first "{"%char s = Some t -> brace_or_empty t.
Proof.
  induction s as [|d s IH]; cbn [from_first]; [discriminate|].
  destruct (ascii_eqb "{" d) eqn:E; [|exact IH].
  intros H. injection H as <-. apply Ascii.eqb_eq in E. subst. right. eauto.
Qed.

Lemma from_first_snoc (c a : ascii) (l x : str) :
  ascii_eqb c a = false -> from_first c (l ++ [a]) = Some x -> exists y, x = y ++ [a].
Proof.
  intros Hca. induction l as [|d l IH]; cbn [from_first app].
  - rewrite Hca. discriminate.
  - destruct (ascii_eqb c d); [|exact IH]. intros H. injection H as <-. exists (d :: l). reflexivity.
Qed.

Lemma upto_last_brace (s t : str) : brace_or_empty s -> upto_last "}"%char s = Some t -> brace_or_empty t.
Proof.
  intros [->|[r ->]]; unfold upto_last; simpl; [discriminate|].
  destruct (from_first "}" (rev r ++ ["{"%char])) as [x|] eqn:E; [|discriminate].
  intros H. injection H as <-. destruct (from_first_snoc "}" "{" _ _ eq_refl E) as [y ->].
  right. rewrite List.rev_app_distr. simpl. eauto.
Qed.

Lemma strip_fence_brace (s : str) : brace_or_empty s -> brace_or_empty (strip_fence s).
Proof.
  intros [->|[r ->]]; [left; reflexivity|]. unfold strip_fence.
  destruct (ends_with fence ("{"%char :: r)); [|right; eauto].
  destruct (last_index_of fence ("{"%char :: r)) as [[|n]|]; simpl; try (left; reflexivity).
  destruct (js_trim_brace (firstn n r)) as [y ->]. right. eauto.
Qed.

Lemma strip_tail_brace (f : nat) (s : str) : brace_or_empty s -> brace_or_empty (strip_tail f s).
Proof.
  revert s. induction f as [|f IH]; intros s Hs; [exact Hs|]. cbn [strip_tail].
  destruct (ends_with dot s || ends_with newline s); [|exact Hs].
  apply IH. destruct Hs as [->|[r ->]]; [left; reflexivity|].
  unfold slice_drop_last. destruct r as [|c r]; [left; reflexivity|].
  change (removelast ("{"%char :: c :: r)) with ("{"%char :: removelast (c :: r)).
  destruct (js_trim_brace (removelast (c :: r))) as [y ->]. right. eauto.
Qed.

Lemma clean_json_brace (improved : bool) (raw s : str) :
  clean_json improved raw = Some s -> brace_or_empty s.
Proof.
  unfold clean_json. destruct (from_first "{" (js_trim raw)) as [s1|] eqn:E; [|discriminate].
  intros H. injection H as <-. unfold strip_trailing.
  apply strip_tail_brace, strip_fence_brace.
  pose proof (from_first_brace _ _ E) as H1.
  destruct improved; [|exact H1].
  destruct (upto_last "}" s1) as [s2|] eqn:E2; [|exact H1].
  exact (upto_last_brace _ _ H1 E2).
Qed.

Lemma p_obj_rest_obj (n : nat) (s : str) (acc : list (str * json)) (v : json) (r : str) :
  p_obj_rest n s acc = Some (v, r) -> exists l, v = JObj l.
Proof.
  revert s acc. induction n as [|n IH]; intros s acc; simpl; [discriminate|].
  destruct (skip_ws s) as [|c t]; [discriminate|].
  destruct (ascii_eqb c ",").
  - destruct (p_member n t) as [[kx r1]|]; [apply IH|discriminate].
  - destruct (ascii_eqb c "}"); [|discriminate]. intros H. injection H as <- <-. eauto.
Qed.

Lemma p_obj_first_obj (n : nat) (s : str) (v : json) (r : str) :
  p_obj_first n s = Some (v, r) -> exists l, v = JObj l.
Proof.
  destruct n as [|n]; simpl; [discriminate|].
  destruct (skip_ws s) as [|c t]; [discriminate|].
  destruct (ascii_eqb c "}").
  - intros H. injection H as <- <-. eauto.
  - destruct (p_member n s) as [[kx r1]|]; [apply p_obj_rest_obj|discriminate].
Qed.

Lemma json_parse_brace (s : str) (v : json) :
  brace_or_empty s -> json_parse s = Some v -> exists l, v = JObj l.
Proof.
  intros [->|[r ->]]; [discriminate|]. unfold json_parse.
  remember (3 * List.length ("{"%char :: r) + 3) as n eqn:En.
  destruct n as [|n]; [lia|]. cbn [p_value]. rewrite skip_ws_nonws by reflexivity.
  change (ascii_eqb "{" "{") with true. cbv iota beta.
  destruct (p_obj_first n r) as [[w r']|] eqn:E; [|discriminate].
  destruct (skip_ws r'); [|discriminate]. intros H. injection H as <-.
  exact (p_obj_first_obj _ _ _ _ E).
Qed.

Lemma run_command_ok (improved : bool) (check : json -> bool) (raw : str) (v : json) :
  run_command improved check raw = Ok v ->
  check v = true /\ exists s, clean_json improved raw = Some s /\ json_parse s = Some v.
Proof.
  unfold run_command. destruct (clean_json improved raw) as [s|]; [|discriminate].
  destruct (json_parse s) as [w|] eqn:Ep; [|discriminate].
  destruct (check w) eqn:C; [|discriminate]. intros H. injection H as <-.
  split; [exact C|]. eauto.
Qed.

Lemma truthy_some (o : option json) : truthy o = true -> exists x, o = Some x.
Proof. destruct o as [x|]; [eauto|discriminate]. Qed.

Lemma nodupb_NoDup (l : list str) : nodupb l = true -> NoDup l.
Proof.
  induction l as [|x r IH]; simpl; intros H; [constructor|].
  apply andb_prop in H as [Hx Hr]. constructor; [|exact (IH Hr)].
  intros Hin. apply negb_true_iff in Hx.
  assert (existsb (str_eqb x) r = true)
    by (apply existsb_exists; exists x; split; [exact Hin|apply str_eqb_refl]).
  congruence.
Qed.

Lemma topic_pool_nodup : NoDup topic_pool.
Proof. apply nodupb_NoDup. vm_compute. reflexivity. Qed.

Lemma draw_second_spec (fuel i : nat) (draws : nat -> nat) (k j : nat) :
  draw_second fuel i draws k = Some j -> j <> i /\ exists k', draws k' = j.
Proof.
  revert k. induction fuel as [|f IH]; intros k; simpl; [discriminate|].
  destruct (Nat.eqb i (draws k)) eqn:E; [apply IH|].
  intros H. injection H as <-. apply Nat.eqb_neq in E. split; [congruence|eauto].
Qed.

(** ** The React UI follows the scenes *)


(** X2.  After a guess on an installed question, the app.jsx UI shows the
    scene's new score, difficulty and tone, is in the [quiz_result]
    phase, and holds the verdict and the question's [correct_answer]. *)
Theorem app_guess_ui (st : App.scene) (q : json) (guess : str) (b : App.backend)
    (u : UI.ui_state) :
  App.currentQuestionData st = Some q ->
  let st' := fst (App.processPlayerGuess st guess b) in
  let u' := UI.handle_all u (snd (App.processPlayerGuess st guess b)) in
  UI.score u' = App.currentScore st' /\
  UI.difficulty u' = Some (JStr (App.difficultyLevel st')) /\
  UI.tone u' = Some (JStr (App.conversationTone st')) /\
  UI.phase u' = lit "quiz_result" /\
  UI.isCorrect u' = Some (strict_eq_guess guess (get q (lit "correct_answer"))) /\
  UI.correctAnswer u' = get q (lit "correct_answer").
Proof.
  intros Hq. unfold App.processPlayerGuess. rewrite Hq. cbv zeta.
  destruct (App.level_of _) as [d t]. repeat split; reflexivity.
Qed.

Lemma app_guess_ui_witness :
  App.currentQuestionData (sample_app_scene 40 (Some sample_question)) = Some sample_question /\
  UI.phase (UI.handle_all UI.initialUIState
              (snd (App.processPlayerGuess (sample_app_scene 40 (Some sample_question))
                      (lit "a-ha") (answers (lit "Nice!"))))) = lit "quiz_result".
Proof.
  split; [reflexivity|].
  exact (proj1 (proj2 (proj2 (proj2
           (app_guess_ui (sample_app_scene 40 (Some sample_question)) sample_question
              (lit "a-ha") (answers (lit "Nice!")) UI.initialUIState eq_refl))))).
Defined.

(** X3.  Once an answer click has been forwarded with a non-null option,
    no answer button forwards another guess until the next
    [QUESTION_READY]: [lastGuess] keeps the option. *)
Theorem one_guess_per_question (attached : bool) (u u' : UI.ui_state) (g : json)
    (es : list event) :
  UI.handleAnswerClick attached u g = Some u' -> g <> JNull ->
  forallb (fun e => negb (is_question_ready e)) es = true ->
  UI.lastGuess (UI.handle_all u' es) = g /\
  forall o, UI.click_answer attached (UI.handle_all u' es) o = None.
Proof.
  intros Hc Hg Hes.
  assert (Hl : UI.lastGuess u' = g).
  { unfold UI.handleAnswerClick in Hc.
    destruct (_ && _ && _); [|discriminate]. injection Hc as <-. reflexivity. }
  rewrite handle_all_lastGuess by exact Hes.
  split; [exact Hl|]. intros o. unfold UI.click_answer.
  rewrite handle_all_lastGuess, Hl by exact Hes.
  destruct g; [contradiction|reflexivity..].
Qed.

Lemma one_guess_per_question_witness :
  exists u1,
    UI.handleAnswerClick true (UI.handle UI.initialUIState (QuestionReady app_question))
      (JStr (lit "Europe")) = Some u1 /\
    UI.click_answer true (UI.handle_all u1 [GuessProcessed None (Some (JStr (lit "a-ha")))])
      (JStr (lit "a-ha")) = None.
Proof.
  eexists. split; [reflexivity|].
  exact (proj2 (one_guess_per_question true
                  (UI.handle UI.initialUIState (QuestionReady app_question)) _
                  (JStr (lit "Europe")) [GuessProcessed None (Some (JStr (lit "a-ha")))]
                  eq_refl ltac:(discriminate) eq_refl) (JStr (lit "a-ha"))).
Defined.

(** X4.  Once the score has reached 1000, the continue button of the
    result phase leaves the UI in the [loading] phase with the
    congratulation message and no enabled button, and every click
    handler then does nothing: the game stops there. *)
Theorem win_stalls (st : App.scene) (b : App.backend) (u u1 : UI.ui_state) :
  (1000 <= App.currentScore st)%Z ->
  UI.handleContinueClick true u = Some u1 ->
  let u2 := UI.handle_all u1 (App.startNextRound st b) in
  UI.phase u2 = lit "loading" /\ UI.message u2 = Some (JStr App.win_msg) /\
  UI.controls u2 = Some [] /\
  (forall a, UI.handleContinueClick a u2 = None) /\
  (forall a g, UI.handleAnswerClick a u2 g = None) /\
  (forall a t, UI.handleTopicClick a u2 t = None).
Proof.
  intros Hs Hc. unfold App.startNextRound.
  apply Z.leb_le in Hs. rewrite Hs.
  unfold UI.handleContinueClick in Hc. destruct (_ && _); [|discriminate].
  injection Hc as <-.
  repeat split; intros; unfold UI.handleContinueClick, UI.handleAnswerClick, UI.handleTopicClick;
    simpl; rewrite ?andb_false_r; reflexivity.
Qed.

Lemma win_stalls_witness :
  let st := fst (App.processPlayerGuess (sample_app_scene 900 (Some sample_question))
                   (lit "a-ha") (answers (lit "Bravo!"))) in
  let u := UI.handle_all UI.initialUIState
             (snd (App.processPlayerGuess (sample_app_scene 900 (Some sample_question))
                     (lit "a-ha") (answers (lit "Bravo!")))) in
  (1000 <= App.currentScore st)%Z /\
  exists u1, UI.handleContinueClick true u = Some u1 /\
    UI.phase (UI.handle_all u1 (App.startNextRound st (answers (lit "x")))) = lit "loading".
Proof.
  cbv zeta.
  assert (Hs : (1000 <= App.currentScore (fst (App.processPlayerGuess
                   (sample_app_scene 900 (Some sample_question)) (lit "a-ha")
                   (answers (lit "Bravo!")))))%Z) by (apply Z.leb_le; vm_compute; reflexivity).
  split; [exact Hs|].
  destruct (UI.handleContinueClick true
              (UI.handle_all UI.initialUIState
                 (snd (App.processPlayerGuess (sample_app_scene 900 (Some sample_question))
                         (lit "a-ha") (answers (lit "Bravo!")))))) as [u1|] eqn:Hc;
    [|vm_compute in Hc; discriminate].
  exists u1. split; [reflexivity|].
  exact (proj1 (win_stalls _ (answers (lit "x")) _ _ Hs Hc)).
Defined.

(** ** [getNewQuestion] of app.jsx *)

(** X5.  [getNewQuestion] installs a question only when the generated text
    parses to a value whose [question] is truthy and whose [options] is an
    array of exactly four entries; the UI is then in the [quiz] phase
    with those four options as enabled answer buttons. *)
Theorem new_question_accepted (st : App.scene) (topic : str) (b : App.backend) (v : json)
    (u : UI.ui_state) :
  In (UI.Emit (QuestionReady v)) (snd (UI.getNewQuestion st topic b)) ->
  (exists text, fst (App.callGeminiAPI b) = Some text /\ json_parse text = Some v) /\
  truthy (get v (lit "question")) = true /\
  App.currentQuestionData (fst (UI.getNewQuestion st topic b)) = Some v /\
  exists l, get v (lit "options") = Some (JArr l) /\ List.length l = 4 /\
    let u' := UI.apply_all u (snd (UI.getNewQuestion st topic b)) in
    UI.phase u' = lit "quiz" /\ UI.question u' = get v (lit "question") /\
    UI.controls u' = Some (map UI.AnswerButton l).
Proof.
  intros H. destruct (getNewQuestion_emits st topic b v H) as (text & Ht & Hp & Hok & E).
  destruct (question_ok_spec v Hok) as [Hq (l & Hl & H4)].
  rewrite E. split; [exists text; split; assumption|]. split; [exact Hq|].
  split; [reflexivity|]. exists l. split; [exact Hl|]. split; [exact H4|].
  cbn [snd]. unfold UI.apply_all. cbn [fold_left UI.apply UI.handle].
  unfold UI.controls, UI.array_of. cbn -[get]. cbn -[get] in Hl. rewrite Hl.
  repeat split; reflexivity.
Qed.

Lemma new_question_accepted_witness :
  In (UI.Emit (QuestionReady app_question))
     (snd (UI.getNewQuestion (sample_app_scene 0 None) (lit "80s Pop") (answers (ser app_question)))) /\
  App.currentQuestionData
    (fst (UI.getNewQuestion (sample_app_scene 0 None) (lit "80s Pop") (answers (ser app_question))))
  = Some app_question.
Proof.
  assert (H : In (UI.Emit (QuestionReady app_question))
                (snd (UI.getNewQuestion (sample_app_scene 0 None) (lit "80s Pop")
                        (answers (ser app_question)))))
    by (vm_compute; right; left; reflexivity).
  split; [exact H|].
  exact (proj1 (proj2 (proj2 (new_question_accepted _ _ _ _ UI.initialUIState H)))).
Defined.

(** X6.  When [getNewQuestion] does not install a question, the scene is
    unchanged and the UI ends in the [topic_select] phase with an empty
    topic list: no button is enabled, so the game cannot go on. *)
Theorem new_question_failure (st : App.scene) (topic : str) (b : App.backend) (u : UI.ui_state) :
  (forall v, ~ In (UI.Emit (QuestionReady v)) (snd (UI.getNewQuestion st topic b))) ->
  let u' := UI.apply_all u (snd (UI.getNewQuestion st topic b)) in
  fst (UI.getNewQuestion st topic b) = st /\
  UI.phase u' = lit "topic_select" /\ UI.topics u' = Some (JArr []) /\
  UI.message u' = Some (JStr UI.topic_select_msg) /\
  UI.controls u' = Some [].
Proof.
  intros Hn. destruct (getNewQuestion_cases st topic b) as [(text & v & _ & _ & _ & E)|E].
  - exfalso. apply (Hn v). rewrite E. simpl. right. left. reflexivity.
  - rewrite E. repeat split; reflexivity.
Qed.

Lemma new_question_failure_witness :
  (forall v, ~ In (UI.Emit (QuestionReady v))
                 (snd (UI.getNewQuestion (sample_app_scene 0 None) (lit "80s Pop")
                         (answers (ser two_option_question))))) /\
  UI.controls (UI.apply_all UI.initialUIState
                 (snd (UI.getNewQuestion (sample_app_scene 0 None) (lit "80s Pop")
                         (answers (ser two_option_question))))) = Some [].
Proof.
  assert (H : forall v, ~ In (UI.Emit (QuestionReady v))
                          (snd (UI.getNewQuestion (sample_app_scene 0 None) (lit "80s Pop")
                                  (answers (ser two_option_question))))).
  { intros v Hin. vm_compute in Hin. destruct Hin as [E|[E|[E|[]]]]; discriminate. }
  split; [exact H|].
  exact (proj2 (proj2 (proj2 (proj2 (new_question_failure _ _ _ UI.initialUIState H))))).
Defined.

(** X7.  [getNewQuestion] does not check [correct_answer]: a question
    without one is installed, and then every guess is judged wrong and
    costs 50 points. *)
Theorem missing_answer_always_wrong (st : App.scene) (topic : str) (b : App.backend) (v : json)
    (guess : str) (b' : App.backend) :
  In (UI.Emit (QuestionReady v)) (snd (UI.getNewQuestion st topic b)) ->
  get v (lit "correct_answer") = None ->
  let st1 := fst (UI.getNewQuestion st topic b) in
  App.currentScore (fst (App.processPlayerGuess st1 guess b')) = (App.currentScore st - 50)%Z /\
  verdict (snd (App.processPlayerGuess st1 guess b')) = Some false.
Proof.
  intros H Hc. destruct (getNewQuestion_emits st topic b v H) as (text & _ & _ & _ & E).
  rewrite E. cbv zeta. cbn [fst].
  destruct (app_guess_scene
              {| App.currentScore := App.currentScore st; App.difficultyLevel := App.difficultyLevel st;
                 App.conversationTone := App.conversationTone st; App.currentQuestionData := Some v |}
              guess b' v eq_refl) as [Hs Hv].
  rewrite Hc in Hs, Hv. simpl in Hs, Hv. rewrite Hs, Hv. split; reflexivity.
Qed.

Lemma missing_answer_always_wrong_witness :
  In (UI.Emit (QuestionReady no_answer_question))
     (snd (UI.getNewQuestion (sample_app_scene 0 None) (lit "80s Pop")
             (answers (ser no_answer_question)))) /\
  get no_answer_question (lit "correct_answer") = None /\
  App.currentScore
    (fst (App.processPlayerGuess
            (fst (UI.getNewQuestion (sample_app_scene 0 None) (lit "80s Pop")
                    (answers (ser no_answer_question))))
            (lit "a-ha") (answers (lit "Hmm.")))) = (-50)%Z.
Proof.
  assert (H : In (UI.Emit (QuestionReady no_answer_question))
                (snd (UI.getNewQuestion (sample_app_scene 0 None) (lit "80s Pop")
                        (answers (ser no_answer_question)))))
    by (vm_compute; right; left; reflexivity).
  assert (Hc : get no_answer_question (lit "correct_answer") = None) by reflexivity.
  split; [exact H|]. split; [exact Hc|].
  exact (proj1 (missing_answer_always_wrong _ _ _ _ (lit "a-ha") (answers (lit "Hmm.")) H Hc)).
Defined.

(** ** Portraits and score banner *)

(** X8.  On the WebLLM path (main.js / part_003), a [conversation_tone]
    from the model other than [Excited], [Sassy] and [Challenging] (such
    as the [Thrilled] the [updateStatus] prompt asks for), or none, shows
    the conductor with the [Normal] portrait and title. *)
Theorem webllm_tone_host (st st' : Phaser.scene) (q r : json) (guess topics_raw status_raw : str)
    (es : list event) (u : UI.ui_state) :
  Phaser.currentQuestionData st = Some q ->
  runLLM_Command status_raw = Ok r ->
  Phaser.processPlayerGuess st guess topics_raw status_raw = Some (st', es) ->
  (forall s, get r (lit "conversation_tone") = Some (JStr s) ->
     ~ In s [lit "Excited"; lit "Sassy"; lit "Challenging"]) ->
  UI.imageSrc (UI.getConductorImageProps (UI.handle_all u es)) = UI.host_image /\
  UI.conductorTitle (UI.getConductorImageProps (UI.handle_all u es)) = lit "The Conductor".
Proof.
  intros Hq Hr Hp Ht. unfold Phaser.processPlayerGuess in Hp. rewrite Hq, Hr in Hp.
  destruct (get r (lit "score_adjustment")) as [[| | adj | | |]|]; try discriminate.
  injection Hp as <- <-.
  unfold UI.getConductorImageProps.
  rewrite !tone_is_other; [split; reflexivity|..];
    intros s Hs Heq; apply (Ht s Hs); rewrite Heq; simpl; tauto.
Qed.

Lemma webllm_tone_host_witness :
  exists st' es,
    runLLM_Command (ser thrilled_status) = Ok thrilled_status /\
    Phaser.processPlayerGuess sample_phaser_scene (lit "a-ha") [] (ser thrilled_status)
      = Some (st', es) /\
    UI.imageSrc (UI.getConductorImageProps (UI.handle_all UI.initialUIState es)) = UI.host_image.
Proof.
  assert (Hr : runLLM_Command (ser thrilled_status) = Ok thrilled_status)
    by (vm_compute; reflexivity).
  assert (Ht : forall s, get thrilled_status (lit "conversation_tone") = Some (JStr s) ->
                 ~ In s [lit "Excited"; lit "Sassy"; lit "Challenging"]).
  { intros s Hs. vm_compute in Hs. injection Hs as <-. simpl. intuition discriminate. }
  do 2 eexists. split; [exact Hr|]. split; [reflexivity|].
  exact (proj1 (webllm_tone_host sample_phaser_scene _ sample_question thrilled_status
                  (lit "a-ha") [] (ser thrilled_status) _ UI.initialUIState eq_refl Hr eq_refl Ht)).
Defined.

(** X9.  After a guess in app.jsx, the conductor portrait follows the
    band of the new score: CHALLENGE from 500, EXCITED from 200, the
    HOST portrait from 0, SASSY below. *)
Theorem app_portrait_band (st : App.scene) (q : json) (guess : str) (b : App.backend)
    (u : UI.ui_state) :
  App.currentQuestionData st = Some q ->
  let s := App.currentScore (fst (App.processPlayerGuess st guess b)) in
  let img := UI.imageSrc (UI.getConductorImageProps
                            (UI.handle_all u (snd (App.processPlayerGuess st guess b)))) in
  ((500 <= s)%Z -> img = lit "https://placehold.co/150x150/dc2626/f8fafc?text=CHALLENGE") /\
  ((200 <= s < 500)%Z -> img = lit "https://placehold.co/150x150/16a34a/f8fafc?text=EXCITED") /\
  ((0 <= s < 200)%Z -> img = UI.host_image) /\
  ((s < 0)%Z -> img = lit "https://placehold.co/150x150/db2777/f8fafc?text=SASSY").
Proof.
  intros Hq. unfold App.processPlayerGuess. rewrite Hq. cbv zeta.
  remember (App.currentScore st + (if strict_eq_guess guess (get q (lit "correct_answer"))
                                   then 100 else -50))%Z as sc eqn:Esc.
  unfold App.level_of.
  destruct (Z.leb_spec 500 sc); [|destruct (Z.leb_spec 200 sc); [|destruct (Z.leb_spec 0 sc)]];
    cbn [fst snd App.currentScore];
    repeat split; intros; (reflexivity || lia).
Qed.

Lemma app_portrait_band_witness :
  App.currentQuestionData (sample_app_scene 450 (Some sample_question)) = Some sample_question /\
  UI.imageSrc (UI.getConductorImageProps
                 (UI.handle_all UI.initialUIState
                    (snd (App.processPlayerGuess (sample_app_scene 450 (Some sample_question))
                            (lit "a-ha") (answers (lit "Great!"))))))
  = lit "https://placehold.co/150x150/dc2626/f8fafc?text=CHALLENGE".
Proof.
  assert (Hs : (500 <= App.currentScore (fst (App.processPlayerGuess
                  (sample_app_scene 450 (Some sample_question)) (lit "a-ha")
                  (answers (lit "Great!")))))%Z) by (apply Z.leb_le; vm_compute; reflexivity).
  split; [reflexivity|].
  exact (proj1 (app_portrait_band (sample_app_scene 450 (Some sample_question)) sample_question
                  (lit "a-ha") (answers (lit "Great!")) UI.initialUIState eq_refl) Hs).
Defined.

(** X10.  After a guess in app.jsx, the player portrait reads CORRECT!
    and the banner "+100 Points!" when the guess is strictly equal to
    [correct_answer], and WRONG! with "-50 Points!" otherwise. *)
Theorem app_result_panel (st : App.scene) (q : json) (guess : str) (b : App.backend)
    (u : UI.ui_state) :
  App.currentQuestionData st = Some q ->
  let ok := strict_eq_guess guess (get q (lit "correct_answer")) in
  let u' := UI.handle_all u (snd (App.processPlayerGuess st guess b)) in
  option_map snd (UI.getCharacterImageProps u') =
    Some (if ok then UI.correct_image else UI.wrong_image) /\
  UI.score_banner u' = Some (if ok then lit "+100 Points!" else lit "-50 Points!").
Proof.
  intros Hq. unfold App.processPlayerGuess. rewrite Hq. cbv zeta.
  destruct (App.level_of _) as [d t].
  destruct (strict_eq_guess guess (get q (lit "correct_answer"))); split; reflexivity.
Qed.

Lemma app_result_panel_witness :
  App.currentQuestionData (sample_app_scene 40 (Some sample_question)) = Some sample_question /\
  UI.score_banner (UI.handle_all UI.initialUIState
                     (snd (App.processPlayerGuess (sample_app_scene 40 (Some sample_question))
                             (lit "Europe") (answers (lit "No!")))))
  = Some (lit "-50 Points!").
Proof.
  split; [reflexivity|].
  exact (proj2 (app_result_panel (sample_app_scene 40 (Some sample_question)) sample_question
                  (lit "Europe") (answers (lit "No!")) UI.initialUIState eq_refl)).
Defined.

(** ** The LLM service *)

(** X11.  The trailing clean-up loop always exits, with a string that
    ends neither in ['.'] nor in a newline. *)
Theorem trailing_cleanup_exits (s : str) :
  ends_with dot (strip_trailing s) = false /\ ends_with newline (strip_trailing s) = false.
Proof. apply strip_tail_exit. lia. Qed.

(** X12.  The cleaned text starts with ['{'] (or is empty), so every
    record [runLLM_Question_Command], [runLLM_Topic_Command] and
    [runLLM_Command] return is a JSON object: a reply that is an array,
    a string or a number is never accepted. *)
Theorem commands_return_objects (improved : bool) (raw : str) (v : json) :
  runLLM_Question_Command improved raw = Ok v \/ runLLM_Topic_Command improved raw = Ok v \/
  runLLM_Command raw = Ok v ->
  exists l, v = JObj l.
Proof.
  unfold runLLM_Question_Command, runLLM_Topic_Command, runLLM_Command.
  intros [H|[H|H]]; apply run_command_ok in H as [_ (s & Hc & Hp)];
    exact (json_parse_brace s v (clean_json_brace _ _ _ Hc) Hp).
Qed.

Lemma commands_return_objects_witness :
  runLLM_Question_Command true (ser sample_question) = Ok sample_question /\
  exists l, sample_question = JObj l.
Proof.
  assert (H : runLLM_Question_Command true (ser sample_question) = Ok sample_question)
    by (vm_compute; reflexivity).
  split; [exact H|]. exact (commands_return_objects true _ _ (or_introl H)).
Defined.

(** X13.  The default topics and the ["Welcome!"] comment of
    [getNewTopics] are never used: [runLLM_Topic_Command] already rejects
    a reply whose [topics] or [conductor_comment] is falsy, so the result
    carries the model's own two fields. *)
Theorem topic_defaults_unused (raw : str) (data : json) :
  runLLM_Topic_Command false raw = Ok data ->
  exists t c, get data (lit "topics") = Some t /\ get data (lit "conductor_comment") = Some c /\
    Phaser.getNewTopics raw = Ok (JObj [(lit "topics", t); (lit "comment", c)]).
Proof.
  intros H. pose proof H as H'. apply run_command_ok in H' as [Hf _].
  unfold fields_truthy in Hf. apply andb_prop in Hf as [_ Hf].
  cbn [forallb] in Hf. rewrite andb_true_r in Hf. apply andb_prop in Hf as [Ht Hc].
  destruct (truthy_some _ Ht) as [t Et]. destruct (truthy_some _ Hc) as [c Ec].
  exists t, c. split; [exact Et|]. split; [exact Ec|].
  unfold Phaser.getNewTopics. rewrite H, Ht, Hc, Et, Ec. reflexivity.
Qed.

Lemma topic_defaults_unused_witness :
  runLLM_Topic_Command false (ser topic_reply) = Ok topic_reply /\
  exists t c, get topic_reply (lit "topics") = Some t /\
    get topic_reply (lit "conductor_comment") = Some c /\
    Phaser.getNewTopics (ser topic_reply) = Ok (JObj [(lit "topics", t); (lit "comment", c)]).
Proof.
  assert (H : runLLM_Topic_Command false (ser topic_reply) = Ok topic_reply)
    by (vm_compute; reflexivity).
  split; [exact H|]. exact (topic_defaults_unused _ _ H).
Defined.

(** X14.  When its [do ... while] loop exits, [getRandomTwoElements]
    returns two different topics of its list. *)
Theorem two_distinct_topics (draws : nat -> nat) (fuel : nat) r :
  (forall k, draws k < List.length topic_pool) ->
  getRandomTwoElements draws fuel = Some r ->
  exists a b, r = Some [Some a; Some b] /\ a <> b /\ In a topic_pool /\ In b topic_pool.
Proof.
  intros Hd. unfold getRandomTwoElements. cbv zeta.
  replace (Nat.ltb (List.length topic_pool) 2) with false by reflexivity.
  destruct (draw_second fuel (draws 0) draws 1) as [j|] eqn:E; [|discriminate].
  intros H. injection H as <-.
  destruct (draw_second_spec _ _ _ _ _ E) as [Hji [k' Hk']].
  pose proof (Hd 0) as H0. pose proof (Hd k') as H1. rewrite Hk' in H1.
  destruct (nth_error topic_pool (draws 0)) as [a|] eqn:Ea;
    [|apply nth_error_None in Ea; lia].
  destruct (nth_error topic_pool j) as [b|] eqn:Eb; [|apply nth_error_None in Eb; lia].
  exists a, b. split; [reflexivity|]. split.
  - intros ->. apply Hji. symmetry.
    apply (proj1 (NoDup_nth_error topic_pool) topic_pool_nodup (draws 0) j H0).
    congruence.
  - split; eapply nth_error_In; eassumption.
Qed.

Lemma two_distinct_topics_witness :
  exists r, getRandomTwoElements repeat_draws 5 = Some r /\
    exists a b, r = Some [Some a; Some b] /\ a <> b /\ In a topic_pool /\ In b topic_pool.
Proof.
  assert (Hd : forall k, repeat_draws k < List.length topic_pool).
  { intros k. replace (List.length topic_pool) with 50 by reflexivity.
    unfold repeat_draws. destruct (k <? 3); lia. }
  eexists. split; [reflexivity|].
  exact (two_distinct_topics repeat_draws 5 _ Hd eq_refl).
Defined.
